(** * DVRServer: the session and reconciliation engine of the Bluecherry client

    A shallow embedding of [src/server/DVRServer.cpp]: the handlers of a
    [DVRServer] object become functions on a record of its fields, the
    signals it emits become a trace, and the replies it reads become
    token streams as [QXmlStreamReader] delivers them.  [QString::toUInt]
    and [DVRCamera::parseXML] are parameters of the reconciler, SHA-1 is
    a parameter of the certificate check. *)

From Stdlib Require Import ZArith NArith Ascii String List Lia Bool.
From stdpp Require Import base decidable option list gmap strings.

Local Open Scope string_scope.
Local Open Scope list_scope.
Local Open Scope Z_scope.

(** ** Qt value types *)

(** [QString] and [QByteArray]: text is kept at the level of Latin-1 code
    units, which is all the comparisons of this file look at. *)
Abbreviation QString := string.
Abbreviation QByteArray := string.

Module QStr.

Definition isEmpty (s : QString) : bool :=
  match s with EmptyString => true | String _ _ => false end.

(** [QChar::isSpace] on the Latin-1 range: the control characters
    0x09..0x0D, the space and the no-break space. *)
Definition isSpace (c : ascii) : bool :=
  let n := N_of_ascii c in
  ((9 <=? n) && (n <=? 13) || (n =? 32) || (n =? 160))%N.

Fixpoint dropSpaces (s : QString) : QString :=
  match s with
  | String c s' => if isSpace c then dropSpaces s' else s
  | EmptyString => EmptyString
  end.

Fixpoint rev_onto (s acc : QString) : QString :=
  match s with
  | String c s' => rev_onto s' (String c acc)
  | EmptyString => acc
  end.

Definition rev (s : QString) : QString := rev_onto s EmptyString.

(** [QString::trimmed]: white space removed from both ends. *)
Definition trimmed (s : QString) : QString :=
  rev (dropSpaces (rev (dropSpaces s))).

End QStr.

(** [(int)u] for an unsigned 32-bit [u]: the value is reinterpreted in
    two's complement. *)
Definition int_of_uint (u : N) : Z :=
  let v := Z.of_N u mod 2 ^ 32 in
  if v <? 2 ^ 31 then v else v - 2 ^ 32.

(** ** QXmlStreamReader over a token stream *)

Module Xml.

Inductive Token : Type :=
| StartDocument
| EndDocument
| StartElement (name : QString) (attributes : list (QString * QString))
| EndElement (name : QString)
| Characters (text : QString)
| Comment
| DTD
| EntityReference (text : QString)
| ProcessingInstruction.

Inductive Error : Type :=
| NoError
| UnexpectedElementError
| CustomError
| NotWellFormedError
| PrematureEndOfDocumentError.

(** The reader: the token it stands on ([None] before the first read
    and once it is [Invalid]), the tokens it has yet to deliver, and
    its error.  A document that is cut short or not well formed is a
    stream that ends early: reading past the end of the stream makes
    the reader [Invalid]. *)
Record Reader : Type := mkReader {
  token : option Token;
  pending : list Token;
  error : Error
}.

Definition open (data : list Token) : Reader :=
  {| token := None; pending := data; error := NoError |}.

Definition hasError (x : Reader) : bool :=
  match error x with NoError => false | _ => true end.

Definition isStartElement (x : Reader) : bool :=
  match token x with Some (StartElement _ _) => true | _ => false end.

Definition isEndElement (x : Reader) : bool :=
  match token x with Some (EndElement _) => true | _ => false end.

Definition name (x : Reader) : QString :=
  match token x with
  | Some (StartElement n _) | Some (EndElement n) => n
  | _ => ""
  end.

Definition attributes (x : Reader) : list (QString * QString) :=
  match token x with Some (StartElement _ a) => a | _ => [] end.

(** [attributes().value(key).toString()]: [None] is the null string of
    an attribute that is not there. *)
Fixpoint value (attrs : list (QString * QString)) (key : QString)
  : option QString :=
  match attrs with
  | [] => None
  | (k, v) :: attrs' => if String.eqb k key then Some v else value attrs' key
  end.

(** [raiseError]: the reader becomes [Invalid] with a custom error. *)
Definition raiseError (x : Reader) : Reader :=
  {| token := None; pending := pending x; error := CustomError |}.

Definition fail (e : Error) (x : Reader) : Reader :=
  {| token := None; pending := pending x; error := e |}.

(** [readNext]: once an error is set every further read is [Invalid]. *)
Definition readNext (x : Reader) : Reader :=
  match error x with
  | NoError =>
      match pending x with
      | t :: ts => {| token := Some t; pending := ts; error := NoError |}
      | [] => fail PrematureEndOfDocumentError x
      end
  | e => fail e x
  end.

(** [readNext() == Invalid] *)
Definition isInvalid (x : Reader) : bool := hasError x.

(** [readNextStartElement]: reads on to the next start element (true)
    or to an end element or an error (false). *)
Fixpoint scanStartElement (ts : list Token) : bool * Reader :=
  match ts with
  | [] => (false, {| token := None; pending := [];
                     error := PrematureEndOfDocumentError |})
  | t :: ts' =>
      match t with
      | EndElement _ =>
          (false, {| token := Some t; pending := ts'; error := NoError |})
      | StartElement _ _ =>
          (true, {| token := Some t; pending := ts'; error := NoError |})
      | _ => scanStartElement ts'
      end
  end.

Definition readNextStartElement (x : Reader) : bool * Reader :=
  match error x with
  | NoError => scanStartElement (pending x)
  | e => (false, fail e x)
  end.

(** [skipCurrentElement]: reads to the end element that closes the
    current one, counting the nesting depth. *)
Fixpoint skipDepth (ts : list Token) (depth : nat) (cur : option Token)
  : Reader :=
  match depth with
  | O => {| token := cur; pending := ts; error := NoError |}
  | S d =>
      match ts with
      | [] => {| token := None; pending := [];
                 error := PrematureEndOfDocumentError |}
      | t :: ts' =>
          match t with
          | EndElement _ => skipDepth ts' d (Some t)
          | StartElement _ _ => skipDepth ts' (S depth) (Some t)
          | _ => skipDepth ts' depth (Some t)
          end
      end
  end.

Definition skipCurrentElement (x : Reader) : Reader :=
  match error x with
  | NoError => skipDepth (pending x) 1 (token x)
  | e => fail e x
  end.

(** [readElementText] with its default behaviour
    [ErrorOnUnexpectedElement]: the text up to the end element; a child
    element or any other token raises [UnexpectedElementError]. *)
Fixpoint collectText (ts : list Token) (result : QString)
  : QString * Reader :=
  match ts with
  | [] => (result, {| token := None; pending := [];
                      error := PrematureEndOfDocumentError |})
  | t :: ts' =>
      match t with
      | Characters s | EntityReference s => collectText ts' (result ++ s)%string
      | EndElement _ =>
          (result, {| token := Some t; pending := ts'; error := NoError |})
      | ProcessingInstruction | Comment => collectText ts' result
      | _ => (result, {| token := None; pending := ts';
                         error := UnexpectedElementError |})
      end
  end.

Definition readElementText (x : Reader) : QString * Reader :=
  if isStartElement x then
    match error x with
    | NoError => collectText (pending x) ""
    | e => ("", fail e x)
    end
  else ("", x).

End Xml.

(** ** The data model *)

(** Modelled from the spec: the class [DVRCamera] of core/DVRCamera.cpp,
    a handle on shared camera data; "at most one Camera per unique id
    exists in an Endpoint's camera set at any time; equality is defined
    by unique id". *)
Record DVRCamera : Type := mkCamera { uniqueId : Z }.

#[global] Instance DVRCamera_eq_dec : EqDecision DVRCamera.
Proof. solve_decision. Defined.

(** What a [DVRServer] and its cameras tell their observers.  The camera
    signals carry what [isOnline()] answers on the camera while the
    signal is delivered; [camera_removed] is the call of
    [DVRCamera::removed], which tells the observers of the camera itself
    and leaves the fields of the server alone. *)
Inductive Signal : Type :=
| changed
| cameraAdded (c : DVRCamera) (isOnline : bool)
| cameraRemoved (c : DVRCamera) (isOnline : bool)
| camera_removed (c : DVRCamera)
| devicesReady
| statusAlertMessageChanged (message : QString).

(** The fields of a [DVRServer] that the handlers below read or write.
    [m_refreshTimer] is [Some period] while the timer is active.
    [settings] holds the byte-array values of the QSettings group
    servers/<configId>/ ; a key that is absent reads as an empty array.
    [api_isOnline] is the answer of the request manager; [cameraData]
    is the online flag of the shared camera data, by unique id. *)
Record DVRServer : Type := mkServer {
  m_cameras : list DVRCamera;
  devicesLoaded : bool;
  m_statusAlertMessage : QString;
  m_refreshTimer : option Z;
  settings : gmap string QByteArray;
  api_isOnline : bool;
  cameraData : gmap Z bool
}.

Definition set_cameras (l : list DVRCamera) (s : DVRServer) : DVRServer :=
  mkServer l (devicesLoaded s) (m_statusAlertMessage s) (m_refreshTimer s)
           (settings s) (api_isOnline s) (cameraData s).

Definition set_devicesLoaded (b : bool) (s : DVRServer) : DVRServer :=
  mkServer (m_cameras s) b (m_statusAlertMessage s) (m_refreshTimer s)
           (settings s) (api_isOnline s) (cameraData s).

Definition set_statusAlertMessage (m : QString) (s : DVRServer) : DVRServer :=
  mkServer (m_cameras s) (devicesLoaded s) m (m_refreshTimer s)
           (settings s) (api_isOnline s) (cameraData s).

Definition set_refreshTimer (t : option Z) (s : DVRServer) : DVRServer :=
  mkServer (m_cameras s) (devicesLoaded s) (m_statusAlertMessage s) t
           (settings s) (api_isOnline s) (cameraData s).

Definition set_settings (m : gmap string QByteArray) (s : DVRServer)
  : DVRServer :=
  mkServer (m_cameras s) (devicesLoaded s) (m_statusAlertMessage s)
           (m_refreshTimer s) m (api_isOnline s) (cameraData s).

Definition set_api_isOnline (b : bool) (s : DVRServer) : DVRServer :=
  mkServer (m_cameras s) (devicesLoaded s) (m_statusAlertMessage s)
           (m_refreshTimer s) (settings s) b (cameraData s).

Definition set_cameraData (d : gmap Z bool) (s : DVRServer) : DVRServer :=
  mkServer (m_cameras s) (devicesLoaded s) (m_statusAlertMessage s)
           (m_refreshTimer s) (settings s) (api_isOnline s) d.

(** The state a constructor leaves behind, for a settings group [cfg]. *)
Definition newServer (cfg : gmap string QByteArray) : DVRServer :=
  mkServer [] false "" None cfg false ∅.

(** ** Cameras *)

(** Modelled from the spec: [DVRCamera::getCamera] of core/DVRCamera.cpp;
    "look up or create the corresponding Camera (create-on-first-sight,
    keyed by unique id, scoped to the endpoint)".  A camera that is
    created starts offline. *)
Definition getCamera (s : DVRServer) (deviceId : Z) : DVRCamera * DVRServer :=
  (mkCamera deviceId,
   match cameraData s !! deviceId with
   | Some _ => s
   | None => set_cameraData (<[deviceId := false]> (cameraData s)) s
   end).

(** Modelled from the spec: [DVRCamera::setOnline] of core/DVRCamera.cpp;
    "mark it online", on the camera's "online flag". *)
Definition setOnline (c : DVRCamera) (on : bool) (s : DVRServer) : DVRServer :=
  set_cameraData (<[uniqueId c := on]> (cameraData s)) s.

(** Modelled from the spec: [DVRCamera::isOnline] of core/DVRCamera.cpp,
    the camera's "online flag". *)
Definition isOnline (s : DVRServer) (c : DVRCamera) : bool :=
  default false (cameraData s !! uniqueId c).

(** [m_cameras.contains(camera)], with the equality of [DVRCamera]. *)
Definition contains (l : list DVRCamera) (c : DVRCamera) : bool :=
  bool_decide (c ∈ l).

(** ** Settings and the pinned certificate *)

Definition readSetting (s : DVRServer) (key : QString) : QByteArray :=
  default "" (settings s !! key).

Definition writeSetting (key : QString) (v : QByteArray) (s : DVRServer)
  : DVRServer * list Signal :=
  (set_settings (<[key := v]> (settings s)) s, [changed]).

Record QSslCertificate : Type := mkCertificate { toDer : QByteArray }.

Section Trust.

(** [QCryptographicHash::hash(_, Sha1)], twenty bytes whatever it is
    given. *)
Variable sha1 : QByteArray → QByteArray.

Definition digest (certificate : QSslCertificate) : QByteArray :=
  sha1 (toDer certificate).

Definition setKnownCertificate (certificate : QSslCertificate)
    (s : DVRServer) : DVRServer * list Signal :=
  writeSetting "sslDigest" (digest certificate) s.

Definition isKnownCertificate (s : DVRServer)
    (certificate : QSslCertificate) : bool * (DVRServer * list Signal) :=
  let knownDigest := readSetting s "sslDigest" in
  if QStr.isEmpty knownDigest then
    (true, setKnownCertificate certificate s)
  else
    (String.eqb (digest certificate) knownDigest, (s, [])).

End Trust.

(** ** The polling timer and the disconnect handler *)

(** [updateCameras]: the slot of both [loginSuccessful] and the timer's
    [timeout]; the result lists the requests that were sent. *)
Definition updateCameras (s : DVRServer) : DVRServer * list QString :=
  if negb (api_isOnline s) then
    (set_refreshTimer None s, [])
  else
    let s :=
      match m_refreshTimer s with
      | None => set_refreshTimer (Some 60000) s
      | Some _ => s
      end in
    (s, ["/ajax/devices.php?XML=1"; "/ajax/stats.php"]).

(** The loop of [disconnected]: [takeFirst], [setOnline(false)],
    [cameraRemoved], [removed], until the list is empty. *)
Fixpoint takeAll (cams : list DVRCamera) (s : DVRServer)
  : DVRServer * list Signal :=
  match cams with
  | [] => (set_cameras [] s, [])
  | c :: rest =>
      let s := setOnline c false (set_cameras rest s) in
      let '(s', sigs) := takeAll rest s in
      (s', cameraRemoved c (isOnline s c) :: camera_removed c :: sigs)
  end.

Definition disconnected (s : DVRServer) : DVRServer * list Signal :=
  let '(s, sigs) := takeAll (m_cameras s) s in
  let s := set_devicesLoaded false s in
  let s := set_statusAlertMessage "" s in
  (s, sigs ++ [statusAlertMessageChanged ""]).

(** ** Replies *)

(** A finished [QNetworkReply]: the error string when [error()] is not
    [NoError], and the body as the tokens a [QXmlStreamReader] opened on
    [readAll()] delivers. *)
Record QNetworkReply : Type := mkReply {
  errorString : option QString;
  readAll : list Xml.Token
}.

(** A while loop over the reader is a recursion on [fuel]; every turn of
    the loops below reads at least one token, so more units than there
    are pending tokens are enough (see [statsMessage_total] and
    [parseCameras_total]).  [None] is a loop that ran out of fuel. *)
Definition fuel_for (data : list Xml.Token) : nat := S (S (length data)).

(** ** The stats reply *)

(** The loop over the children of [stats] (lines 267-284). *)
Fixpoint statsLoop (fuel : nat) (xml : Xml.Reader) (message : QString)
    (hadMessageElement : bool) : option (Xml.Reader * QString * bool) :=
  match fuel with
  | O => None
  | S fuel' =>
      let xml := Xml.readNext xml in
      if Xml.isInvalid xml then Some (xml, message, hadMessageElement)
      else if Xml.isEndElement xml && String.eqb (Xml.name xml) "stats" then
        Some (xml, message, hadMessageElement)
      else if negb (Xml.isStartElement xml) then
        statsLoop fuel' xml message hadMessageElement
      else if String.eqb (Xml.name xml) "message" then
        let '(text, xml) := Xml.readElementText xml in
        statsLoop fuel' xml
                  (if QStr.isEmpty text then message else text) true
      else if String.eqb (Xml.name xml) "bc-server-running" then
        let '(text, xml) := Xml.readElementText xml in
        if String.eqb (QStr.trimmed text) "down" then
          statsLoop fuel' xml "Server process stopped" hadMessageElement
        else statsLoop fuel' xml message hadMessageElement
      else statsLoop fuel' xml message hadMessageElement
  end.

(** The loop over the start elements of the document (lines 263-286). *)
Fixpoint statsDocument (fuel : nat) (xml : Xml.Reader) (message : QString)
    (hadMessageElement : bool) : option (QString * bool) :=
  match fuel with
  | O => None
  | S fuel' =>
      let '(found, xml) := Xml.readNextStartElement xml in
      if negb found then Some (message, hadMessageElement)
      else if String.eqb (Xml.name xml) "stats" then
        match statsLoop fuel' xml message hadMessageElement with
        | Some (xml, message, hadMessageElement) =>
            statsDocument fuel' xml message hadMessageElement
        | None => None
        end
      else statsDocument fuel' xml message hadMessageElement
  end.

(** The message a stats reply stands for (lines 251-290). *)
Definition statsMessage (reply : QNetworkReply) : option QString :=
  match errorString reply with
  | Some e => Some ("Status request error: " ++ e)%string
  | None =>
      match statsDocument (fuel_for (readAll reply))
                          (Xml.open (readAll reply)) "" false with
      | Some (message, hadMessageElement) =>
          Some (if hadMessageElement then message
                else "Status request error: invalid server response")
      | None => None
      end
  end.

(** [updateStatsReply]; [reply] is [None] when the sender is not a
    reply object. *)
Definition updateStatsReply (s : DVRServer) (reply : option QNetworkReply)
  : option (DVRServer * list Signal) :=
  match reply with
  | None => Some (s, [])
  | Some reply =>
      match statsMessage reply with
      | Some message =>
          if negb (String.eqb message (m_statusAlertMessage s)) then
            Some (set_statusAlertMessage message s,
                  [statusAlertMessageChanged message])
          else Some (s, [])
      | None => None
      end
  end.

(** ** The device-list reply *)

(** What the parsing loops carry along: the reader, the ids seen in the
    reply, the server and the signals emitted so far. *)
Record Parse : Type := mkParse {
  xml : Xml.Reader;
  idSet : gset Z;
  server : DVRServer;
  signals : list Signal
}.

Definition set_xml (x : Xml.Reader) (p : Parse) : Parse :=
  mkParse x (idSet p) (server p) (signals p).

Inductive Turn : Type :=
| Break (p : Parse)
| Continue (p : Parse).

Section Reconcile.

(** [QString::toUInt]: the unsigned value, or [None] when [ok] comes
    back false. *)
Variable toUInt : QString → option N.

(** [DVRCamera::parseXML], from core/DVRCamera.cpp: reads the fields of
    the entry the reader stands on and says whether that went well. *)
Variable parseXML : DVRCamera → Xml.Reader → bool * Xml.Reader.

(** One turn of the loop over the children of [devices] (lines
    171-206): [Break] when the loop is left, [Continue] when its
    condition is tried again. *)
Definition devicesTurn (p : Parse) : Turn :=
  let x := Xml.readNext (xml p) in
  if Xml.isInvalid x then Break (set_xml x p)
  else if Xml.isEndElement x && String.eqb (Xml.name x) "devices" then
    Break (set_xml x p)
  else if negb (Xml.isStartElement x) then Continue (set_xml x p)
  else if String.eqb (Xml.name x) "device" then
    match Xml.value (Xml.attributes x) "id" with
    | None => Continue (set_xml x p)
    | Some idv =>
        match toUInt idv with
        | None => Continue (set_xml (Xml.raiseError x) p)
        | Some u =>
            let deviceId := int_of_uint u in
            let ids := {[deviceId]} ∪ idSet p in
            let '(camera, s) := getCamera (server p) deviceId in
            let s := setOnline camera true s in
            let '(ok, x) := parseXML camera x in
            if negb ok then
              let x := if Xml.hasError x then x else Xml.raiseError x in
              Continue (mkParse x ids s (signals p))
            else if contains (m_cameras s) camera then
              Continue (mkParse x ids s (signals p))
            else
              Continue
                (mkParse x ids
                   (set_cameras (m_cameras s ++ [camera]) s)
                   (signals p ++ [cameraAdded camera (isOnline s camera)]))
        end
    end
  else Continue (set_xml x p).

Fixpoint devicesLoop (fuel : nat) (p : Parse) : option Parse :=
  match fuel with
  | O => None
  | S fuel' =>
      match devicesTurn p with
      | Break p' => Some p'
      | Continue p' => devicesLoop fuel' p'
      end
  end.

(** The loop over the start elements of the document (lines 165-212);
    the flag is [hasDevicesElement]. *)
Fixpoint devicesDocument (fuel : nat) (p : Parse) : option (bool * Parse) :=
  match fuel with
  | O => None
  | S fuel' =>
      let '(found, x) := Xml.readNextStartElement (xml p) in
      if negb found then Some (false, set_xml x p)
      else if String.eqb (Xml.name x) "devices" then
        match devicesLoop fuel' (set_xml x p) with
        | Some p' => Some (true, p')
        | None => None
        end
      else devicesDocument fuel' (set_xml (Xml.skipCurrentElement x) p)
  end.

(** Lines 158-215: the reply is read, and a reply without a [devices]
    element is an error of the reader. *)
Definition parseCameras (s : DVRServer) (reply : QNetworkReply)
  : option Parse :=
  match devicesDocument (fuel_for (readAll reply))
                        (mkParse (Xml.open (readAll reply)) ∅ s []) with
  | Some (hasDevicesElement, p) =>
      Some (if hasDevicesElement then p
            else set_xml (Xml.raiseError (xml p)) p)
  | None => None
  end.

(** The loop of lines 223-234: the cameras whose id was not seen are
    taken out of the list, in order, each with [cameraRemoved] and then
    [removed]. *)
Fixpoint removeAbsent (ids : gset Z) (s : DVRServer)
    (cams : list DVRCamera) : list DVRCamera * list Signal :=
  match cams with
  | [] => ([], [])
  | c :: rest =>
      let '(kept, sigs) := removeAbsent ids s rest in
      if bool_decide (uniqueId c ∈ ids) then (c :: kept, sigs)
      else (kept, cameraRemoved c (isOnline s c) :: camera_removed c :: sigs)
  end.

(** Lines 223-240, entered when the reader has no error. *)
Definition reconcile (wasEmpty : bool) (p : Parse)
  : DVRServer * list Signal :=
  let s := server p in
  let '(kept, removals) := removeAbsent (idSet p) s (m_cameras s) in
  let s := set_cameras kept s in
  let sigs := signals p ++ removals in
  if negb (devicesLoaded s) || (wasEmpty && negb (bool_decide (kept = []))) then
    (set_devicesLoaded true s, sigs ++ [devicesReady])
  else (s, sigs).

(** [updateCamerasReply]; [reply] is [None] when the sender is not a
    reply object. *)
Definition updateCamerasReply (s : DVRServer) (reply : option QNetworkReply)
  : option (DVRServer * list Signal) :=
  match reply with
  | None => Some (s, [])
  | Some reply =>
      match errorString reply with
      | Some _ => Some (s, [])
      | None =>
          let wasEmpty := bool_decide (m_cameras s = []) in
          match parseCameras s reply with
          | Some p =>
              if Xml.hasError (xml p) then Some (server p, signals p)
              else Some (reconcile wasEmpty p)
          | None => None
          end
      end
  end.

(** The reply gets as far as line 223: it is a reply, without a
    network error, and the reader has no error after the parse. *)
Definition reconciled (s : DVRServer) (reply : option QNetworkReply) : bool :=
  match reply with
  | Some reply =>
      match errorString reply, parseCameras s reply with
      | None, Some p => negb (Xml.hasError (xml p))
      | _, _ => false
      end
  | None => false
  end.

(** [idSet] as the parse of the reply leaves it. *)
Definition observedIds (s : DVRServer) (reply : option QNetworkReply)
  : gset Z :=
  match reply with
  | Some reply =>
      match parseCameras s reply with
      | Some p => idSet p
      | None => ∅
      end
  | None => ∅
  end.

End Reconcile.

(** ** Instances of the two functions the reconciler is given *)

(** A decimal reading of [toUInt]: digits only, at most 2^32 - 1. *)
Fixpoint decimal (s : QString) (acc : N) : option N :=
  match s with
  | EmptyString => Some acc
  | String c s' =>
      let n := N_of_ascii c in
      if ((48 <=? n) && (n <=? 57))%N then decimal s' (acc * 10 + (n - 48))%N
      else None
  end.

Definition toUInt_decimal (s : QString) : option N :=
  if QStr.isEmpty s then None
  else match decimal s 0%N with
       | Some v => if (v <=? 4294967295)%N then Some v else None
       | None => None
       end.

(** A [parseXML] that reads the entry to its end element and fails when
    the document ends before that. *)
Definition parseXML_entry (c : DVRCamera) (x : Xml.Reader)
  : bool * Xml.Reader :=
  let x' := Xml.skipCurrentElement x in
  (negb (Xml.hasError x'), x').

(** Documents for the examples. *)
Definition element (name text : QString) : list Xml.Token :=
  [Xml.StartElement name []; Xml.Characters text; Xml.EndElement name].

Definition device (id : QString) : list Xml.Token :=
  [Xml.StartElement "device" [("id", id)]]
    ++ element "device_name" "cam" ++ [Xml.EndElement "device"].

Definition document (root : QString) (children : list Xml.Token)
  : list Xml.Token :=
  [Xml.StartDocument; Xml.StartElement root []]
    ++ children ++ [Xml.EndElement root; Xml.EndDocument].

Definition devicesReply (ids : list QString) : QNetworkReply :=
  mkReply None (document "devices" (concat (map device ids))).

(** A twenty-byte function to stand for SHA-1 in the examples: the
    message cut or filled up to twenty bytes. *)
Fixpoint fill (n : nat) (m : QByteArray) : QByteArray :=
  match n with
  | O => EmptyString
  | S n' =>
      match m with
      | EmptyString => String "000" (fill n' EmptyString)
      | String c m' => String c (fill n' m')
      end
  end.

Definition fill20 (m : QByteArray) : QByteArray := fill 20 m.

(** ** The transport's events *)

(** Modelled from the spec: the signals of ServerRequestManager, which
    is declared outside this file; the session is "Online (after
    Transport signals login success)" and "Disconnected (on Transport
    disconnect signal)".  Each signal runs the slot the constructor
    connects it to. *)
Definition loginSuccessful (s : DVRServer) : DVRServer * list QString :=
  updateCameras (set_api_isOnline true s).

Definition transportDisconnected (s : DVRServer) : DVRServer * list Signal :=
  disconnected (set_api_isOnline false s).

(** ** Stats documents whose children are plain text elements *)

Definition elements (cs : list (QString * QString)) : list Xml.Token :=
  concat (map (λ c, element c.1 c.2) cs).

Definition statsReply (cs : list (QString * QString)) : QNetworkReply :=
  mkReply None (document "stats" (elements cs)).

(** What one child of [stats] does to the message and to
    [hadMessageElement], read off the two branches of lines 274-283. *)
Definition childEffect (st : QString * bool) (c : QString * QString)
  : QString * bool :=
  if String.eqb c.1 "message" then
    (if QStr.isEmpty c.2 then st.1 else c.2, true)
  else if String.eqb c.1 "bc-server-running" then
    (if String.eqb (QStr.trimmed c.2) "down" then "Server process stopped"
     else st.1, st.2)
  else st.

(** ** Reading the result of a turn *)

Definition result (t : Turn) : Parse :=
  match t with Break p | Continue p => p end.

(** The server once [getCamera] and [setOnline(true)] have run for
    [deviceId] (lines 192-193). *)
Definition marked (s : DVRServer) (deviceId : Z) : DVRServer :=
  setOnline (mkCamera deviceId) true (getCamera s deviceId).2.

Arguments marked : simpl never.

(** The ids of the cameras of a list, as a set. *)
Definition cameraIds (l : list DVRCamera) : gset Z :=
  list_to_set (uniqueId <$> l).

(** [p'] comes after [p] in a parse: cameras were only added at the end
    of the list, each with its [cameraAdded], and ids only added to the
    set. *)
Definition extends (p p' : Parse) : Prop :=
  ∃ added,
    m_cameras (server p') = m_cameras (server p) ++ added ∧
    signals p' = signals p ++ map (λ c, cameraAdded c true) added ∧
    devicesLoaded (server p') = devicesLoaded (server p) ∧
    idSet p ⊆ idSet p'.

(** While the reader has no error, every id seen has its camera in the
    list. *)
Definition covered (p : Parse) : Prop :=
  Xml.hasError (xml p) = false →
  ∀ id, id ∈ idSet p → mkCamera id ∈ m_cameras (server p).

#[global] Instance Signal_eq_dec : EqDecision Signal.
Proof. solve_decision. Defined.

(** How many [devicesReady] a list of signals holds. *)
Definition readyCount (sigs : list Signal) : nat :=
  length (filter (λ e, e = devicesReady) sigs).

(** What the examples look at in the outcome of a handler: the camera
    list, [devicesLoaded] and the signals. *)
Definition summary (r : option (DVRServer * list Signal))
  : option (list DVRCamera * bool * list Signal) :=
  match r with
  | Some (s, sigs) => Some (m_cameras s, devicesLoaded s, sigs)
  | None => None
  end.

(** Two device-list replies in a row: the signals of the first, then the
    camera list and the signals after the second. *)
Definition twoReplies (toUInt : QString → option N)
    (parseXML : DVRCamera → Xml.Reader → bool * Xml.Reader)
    (s : DVRServer) (r1 r2 : QNetworkReply)
  : option (list Signal * list DVRCamera * list Signal) :=
  match updateCamerasReply toUInt parseXML s (Some r1) with
  | Some (s1, sigs1) =>
      match updateCamerasReply toUInt parseXML s1 (Some r2) with
      | Some (s2, sigs2) => Some (sigs1, m_cameras s2, sigs2)
      | None => None
      end
  | None => None
  end.

(** ** What the handlers keep *)

(** The fields of the server that belong neither to the camera set nor
    to the camera data. *)
Definition sameConfig (s s' : DVRServer) : Prop :=
  devicesLoaded s' = devicesLoaded s ∧
  m_statusAlertMessage s' = m_statusAlertMessage s ∧
  m_refreshTimer s' = m_refreshTimer s ∧
  settings s' = settings s ∧
  api_isOnline s' = api_isOnline s.

(** Where a parse that started on the server [s] stands in [p]: cameras
    that were not in the list have been appended, each once and with its
    [cameraAdded]; every id seen is the id of an online camera; the
    camera data of the other ids and the rest of the server are as
    in [s]. *)
Definition parsedFrom (s : DVRServer) (p : Parse) : Prop :=
  ∃ added,
    m_cameras (server p) = m_cameras s ++ added ∧
    signals p = map (λ c, cameraAdded c true) added ∧
    NoDup added ∧
    (∀ c, c ∈ added → (c ∉ m_cameras s) ∧ (uniqueId c ∈ idSet p)) ∧
    (∀ id, id ∈ idSet p → cameraData (server p) !! id = Some true) ∧
    (∀ id, id ∉ idSet p → cameraData (server p) !! id = cameraData s !! id) ∧
    sameConfig s (server p).

(** No two cameras of the set are the same. *)
Definition distinctCameras (s : DVRServer) : Prop := NoDup (m_cameras s).

(** Every camera of the set is online. *)
Definition camerasOnline (s : DVRServer) : Prop :=
  ∀ c, c ∈ m_cameras s → isOnline s c = true.

(** No [devices] start element among the tokens. *)
Definition noElement (name : QString) (data : list Xml.Token) : Prop :=
  ∀ attrs, Xml.StartElement name attrs ∉ data.

(** [Inv] holds of a new server and is kept by every slot of the
    server: [updateCameras], [disconnected] and the two reply handlers. *)
Definition keptByHandlers (toUInt : QString → option N)
    (parseXML : DVRCamera → Xml.Reader → bool * Xml.Reader)
    (Inv : DVRServer → Prop) : Prop :=
  (∀ cfg, Inv (newServer cfg)) ∧
  (∀ s, Inv s → Inv (updateCameras s).1) ∧
  (∀ s, Inv s → Inv (disconnected s).1) ∧
  (∀ s reply, Inv s →
     ∃ s' sigs, updateStatsReply s reply = Some (s', sigs) ∧ Inv s') ∧
  (∀ s reply, Inv s →
     ∃ s' sigs,
       updateCamerasReply toUInt parseXML s reply = Some (s', sigs) ∧ Inv s').

(** A child of [stats] that leaves the message alone: a [message]
    without text, a [bc-server-running] that is not "down", or any
    other element. *)
Definition quiet (c : QString * QString) : Prop :=
  (c.1 = "message" → c.2 = "") ∧
  (c.1 = "bc-server-running" → QStr.trimmed c.2 ≠ "down").

(** A server with the cameras 1 and 2, both online, for the examples. *)
Definition twoCameras : DVRServer :=
  mkServer [mkCamera 1; mkCamera 2] true "" (Some 60000) ∅ true
           {[1 := true; 2 := true]}.

(** ** The configuration of the endpoint *)

(** The setters, [readFromSettings], the constructor and [removeServer]
    work on the six configuration fields and on the QSettings group
    servers/<configId>/ , here a map from the keys of the group to the
    values last written. *)
Module Config.

Inductive QVariant : Type :=
| Invalid
| VBool (b : bool)
| VInt (n : Z)
| VString (s : QString)
| VByteArray (a : QByteArray).

Record Endpoint : Type := mkEndpoint {
  m_displayName : QString;
  m_hostname : QString;
  m_port : Z;
  m_username : QString;
  m_password : QString;
  m_autoConnect : bool;
  qsettings : gmap string QVariant
}.

Definition set_displayName (v : QString) (e : Endpoint) : Endpoint :=
  mkEndpoint v (m_hostname e) (m_port e) (m_username e) (m_password e)
             (m_autoConnect e) (qsettings e).

Definition set_hostname (v : QString) (e : Endpoint) : Endpoint :=
  mkEndpoint (m_displayName e) v (m_port e) (m_username e) (m_password e)
             (m_autoConnect e) (qsettings e).

Definition set_port (v : Z) (e : Endpoint) : Endpoint :=
  mkEndpoint (m_displayName e) (m_hostname e) v (m_username e) (m_password e)
             (m_autoConnect e) (qsettings e).

Definition set_username (v : QString) (e : Endpoint) : Endpoint :=
  mkEndpoint (m_displayName e) (m_hostname e) (m_port e) v (m_password e)
             (m_autoConnect e) (qsettings e).

Definition set_password (v : QString) (e : Endpoint) : Endpoint :=
  mkEndpoint (m_displayName e) (m_hostname e) (m_port e) (m_username e) v
             (m_autoConnect e) (qsettings e).

Definition set_autoConnect (v : bool) (e : Endpoint) : Endpoint :=
  mkEndpoint (m_displayName e) (m_hostname e) (m_port e) (m_username e)
             (m_password e) v (qsettings e).

Definition set_qsettings (v : gmap string QVariant) (e : Endpoint) : Endpoint :=
  mkEndpoint (m_displayName e) (m_hostname e) (m_port e) (m_username e)
             (m_password e) (m_autoConnect e) v.

(** [readSetting(key, def)] and [writeSetting(key, value)], which emits
    [changed]. *)
Definition readSetting (e : Endpoint) (key : QString) (def : QVariant)
  : QVariant :=
  default def (qsettings e !! key).

Definition writeSetting (key : QString) (value : QVariant) (e : Endpoint)
  : Endpoint * list Signal :=
  (set_qsettings (<[key := value]> (qsettings e)) e, [changed]).

Definition setDisplayName (name : QString) (e : Endpoint)
  : Endpoint * list Signal :=
  if String.eqb (m_displayName e) name then (e, [])
  else writeSetting "displayName" (VString name) (set_displayName name e).

Definition setHostname (hostname : QString) (e : Endpoint)
  : Endpoint * list Signal :=
  let '(e, sigs) := writeSetting "hostname" (VString hostname) e in
  (set_hostname hostname e, sigs).

Definition setPort (port : Z) (e : Endpoint) : Endpoint * list Signal :=
  let '(e, sigs) :=
    writeSetting "port" (VInt (if port =? 0 then 7001 else port)) e in
  (set_port port e, sigs).

Definition setUsername (username : QString) (e : Endpoint)
  : Endpoint * list Signal :=
  let '(e, sigs) := writeSetting "username" (VString username) e in
  (set_username username e, sigs).

Definition setPassword (password : QString) (e : Endpoint)
  : Endpoint * list Signal :=
  let '(e, sigs) := writeSetting "password" (VString password) e in
  (set_password password e, sigs).

Definition setAutoConnect (autoConnect : bool) (e : Endpoint)
  : Endpoint * list Signal :=
  let '(e, sigs) := writeSetting "autoConnect" (VBool autoConnect) e in
  (set_autoConnect autoConnect e, sigs).

(** [removeServer]: [serverRemoved] is emitted and the group is removed
    from the settings. *)
Inductive Removal : Type := serverRemoved.

Definition removeServer (e : Endpoint) : Endpoint * list Removal :=
  (set_qsettings ∅ e, [serverRemoved]).

(** What [login] and [toggleOnline] ask of the request manager. *)
Inductive Request : Type :=
| apiLogin (username password : QString)
| apiLogout.

Definition login (e : Endpoint) : Request :=
  apiLogin (m_username e) (m_password e).

Definition toggleOnline (isOnline : bool) (e : Endpoint) : Request :=
  if isOnline then apiLogout else login e.

Definition displayName (e : Endpoint) : QString := m_displayName e.
Definition hostname (e : Endpoint) : QString := m_hostname e.
Definition serverPort (e : Endpoint) : Z := m_port e.
Definition username (e : Endpoint) : QString := m_username e.
Definition password (e : Endpoint) : QString := m_password e.
Definition autoConnect (e : Endpoint) : bool := m_autoConnect e.

Section Conversions.

(** [QVariant::toString], [toInt] and [toBool]. *)
Variable toString : QVariant → QString.
Variable toInt : QVariant → Z.
Variable toBool : QVariant → bool.

Definition readFromSettings (e : Endpoint) : Endpoint :=
  let port := toInt (readSetting e "port" Invalid) in
  mkEndpoint
    (toString (readSetting e "displayName" Invalid))
    (toString (readSetting e "hostname" Invalid))
    (if port =? 0 then 7001 else port)
    (toString (readSetting e "username" Invalid))
    (toString (readSetting e "password" Invalid))
    (toBool (readSetting e "autoConnect" (VBool true)))
    (qsettings e).

(** The constructor, for the settings group it finds: the fields are read
    from the settings, and the flag says whether [login] is scheduled. *)
Definition construct (group : gmap string QVariant) : Endpoint * bool :=
  let e := readFromSettings (mkEndpoint "" "" 0 "" "" false group) in
  (e, m_autoConnect e && negb (QStr.isEmpty (hostname e))
        && negb (QStr.isEmpty (username e))).

(** The fields are what [readFromSettings] would read now. *)
Definition coherent (e : Endpoint) : Prop := readFromSettings e = e.

End Conversions.

(** Conversions for the examples: a value of the asked type is given
    back, any other value converts like an invalid one. *)
Definition plainString (v : QVariant) : QString :=
  match v with VString s => s | _ => "" end.

Definition plainInt (v : QVariant) : Z :=
  match v with VInt n => n | _ => 0 end.

Definition plainBool (v : QVariant) : bool :=
  match v with VBool b => b | _ => false end.

End Config.

(** ** Documents by their parts *)

(** A token that is neither a start nor an end element: the document
    start, white space and other text, comments and the like. *)
Definition nonElement (t : Xml.Token) : Prop :=
  match t with
  | Xml.StartElement _ _ | Xml.EndElement _ => False
  | _ => True
  end.

(** A token the loop over the children of [devices] passes over: any
    token but the end of [devices] and but the start of a [device] that
    has an id attribute. *)
Definition passedOver (t : Xml.Token) : Prop :=
  match t with
  | Xml.EndElement n => n ≠ "devices"
  | Xml.StartElement n attrs => n = "device" → Xml.value attrs "id" = None
  | _ => True
  end.

(** The children of [devices], in document order: a token that is passed
    over, or a [device] entry with its attributes and the tokens between
    its start and its end. *)
Inductive Part : Type :=
| Passed (t : Xml.Token)
| Entry (attrs : list (QString * QString)) (fields : list Xml.Token).

Definition partTokens (part : Part) : list Xml.Token :=
  match part with
  | Passed t => [t]
  | Entry attrs fields =>
      Xml.StartElement "device" attrs :: fields ++ [Xml.EndElement "device"]
  end.

Definition bodyTokens (parts : list Part) : list Xml.Token :=
  concat (map partTokens parts).

(** A device-list document: a prolog, the [devices] element with its
    children, and what follows. *)
Definition devicesData (prolog : list Xml.Token)
    (attrs : list (QString * QString)) (parts : list Part)
    (rest : list Xml.Token) : list Xml.Token :=
  prolog ++ Xml.StartElement "devices" attrs
         :: bodyTokens parts ++ Xml.EndElement "devices" :: rest.

(** The cameras that a run over the ids [ids] appends to the list
    [have]: in order, each id once, and none that is there already. *)
Fixpoint newCameras (have : list DVRCamera) (ids : list Z) : list DVRCamera :=
  match ids with
  | [] => []
  | id :: ids' =>
      if bool_decide (mkCamera id ∈ have) then newCameras have ids'
      else mkCamera id :: newCameras (have ++ [mkCamera id]) ids'
  end.

Section Parts.

Variable toUInt : QString → option N.
Variable parseXML : DVRCamera → Xml.Reader → bool * Xml.Reader.

(** The device id an entry with these attributes is listed under. *)
Definition entryId (attrs : list (QString * QString)) : option Z :=
  match Xml.value attrs "id" with
  | Some idv =>
      match toUInt idv with
      | Some u => Some (int_of_uint u)
      | None => None
      end
  | None => None
  end.

(** The device ids of the entries, in document order. *)
Fixpoint listedIds (parts : list Part) : list Z :=
  match parts with
  | [] => []
  | Passed _ :: parts' => listedIds parts'
  | Entry attrs _ :: parts' =>
      match entryId attrs with
      | Some id => id :: listedIds parts'
      | None => listedIds parts'
      end
  end.

(** The id is the device id of a [device] start tag among the tokens. *)
Definition listedIn (data : list Xml.Token) (id : Z) : Prop :=
  ∃ attrs, Xml.StartElement "device" attrs ∈ data ∧ entryId attrs = Some id.

(** [parseXML] reads the entry from its start to its end and accepts
    it, whatever follows the entry. *)
Definition accepted (attrs : list (QString * QString))
    (fields : list Xml.Token) : Prop :=
  ∀ c rest,
    parseXML c (Xml.mkReader (Some (Xml.StartElement "device" attrs))
                             (fields ++ Xml.EndElement "device" :: rest)
                             Xml.NoError)
    = (true, Xml.mkReader (Some (Xml.EndElement "device")) rest Xml.NoError).

(** A part that is read without error: a token that is passed over, or
    an entry with a readable id that [parseXML] accepts. *)
Definition readable (part : Part) : Prop :=
  match part with
  | Passed t => passedOver t
  | Entry attrs fields => is_Some (entryId attrs) ∧ accepted attrs fields
  end.

(** The entry with these attributes is in error: its id is there but is
    not a non-negative integer, or [parseXML] rejects its fields, which
    begin the tokens [tail]. *)
Definition inError (attrs : list (QString * QString))
    (tail : list Xml.Token) : Prop :=
  ∃ idv, Xml.value attrs "id" = Some idv ∧
    (toUInt idv = None ∨
     ∃ u, toUInt idv = Some u ∧
          (parseXML (mkCamera (int_of_uint u))
             (Xml.mkReader (Some (Xml.StartElement "device" attrs)) tail
                           Xml.NoError)).1 = false).

End Parts.

(** ** Stats documents by their parts *)

(** A token that [readElementText] takes as part of the text or leaves
    out of it. *)
Definition textToken (t : Xml.Token) : Prop :=
  match t with
  | Xml.Characters _ | Xml.EntityReference _
  | Xml.Comment | Xml.ProcessingInstruction => True
  | _ => False
  end.

(** The text [readElementText] makes of such tokens. *)
Fixpoint textOf (ts : list Xml.Token) : QString :=
  match ts with
  | [] => ""
  | Xml.Characters s :: ts' | Xml.EntityReference s :: ts' =>
      (s ++ textOf ts')%string
  | _ :: ts' => textOf ts'
  end.

(** A token the loop over the children of [stats] does nothing with: any
    token but the end of [stats] and but the start of a [message] or a
    [bc-server-running]. *)
Definition ignored (t : Xml.Token) : Prop :=
  match t with
  | Xml.EndElement n => n ≠ "stats"
  | Xml.StartElement n _ => n ≠ "message" ∧ n ≠ "bc-server-running"
  | _ => True
  end.

(** The children of [stats], in document order: a token that is ignored,
    or a [message] or [bc-server-running] element with its attributes
    and the tokens of its text. *)
Inductive StatsPart : Type :=
| Other (t : Xml.Token)
| Child (name : QString) (attrs : list (QString * QString))
        (text : list Xml.Token).

Definition statsPartTokens (part : StatsPart) : list Xml.Token :=
  match part with
  | Other t => [t]
  | Child n attrs text => Xml.StartElement n attrs :: text ++ [Xml.EndElement n]
  end.

Definition statsTokens (parts : list StatsPart) : list Xml.Token :=
  concat (map statsPartTokens parts).

Definition textOnly (part : StatsPart) : Prop :=
  match part with
  | Other t => ignored t
  | Child n _ text =>
      (n = "message" ∨ n = "bc-server-running") ∧ Forall textToken text
  end.

(** The [message] and [bc-server-running] children by name and text. *)
Fixpoint childrenOf (parts : list StatsPart) : list (QString * QString) :=
  match parts with
  | [] => []
  | Other _ :: parts' => childrenOf parts'
  | Child n _ text :: parts' => (n, textOf text) :: childrenOf parts'
  end.

(** A stats document: a prolog, the [stats] element with its children,
    and what follows. *)
Definition statsData (prolog : list Xml.Token)
    (attrs : list (QString * QString)) (parts : list StatsPart)
    (rest : list Xml.Token) : list Xml.Token :=
  prolog ++ Xml.StartElement "stats" attrs
         :: statsTokens parts ++ Xml.EndElement "stats" :: rest.

(** * Properties *)

(** ** The reader only moves forward *)

Module XmlFacts.
Import Xml.

Lemma hasError_false (x : Reader) : hasError x = false ↔ error x = NoError.
Proof. unfold hasError. destruct (error x); split; congruence. Qed.

Lemma readNext_error (x : Reader) :
  error x ≠ NoError → hasError (readNext x) = true.
Proof. unfold readNext, hasError. destruct (error x); simpl; congruence. Qed.

Lemma readNext_valid (x : Reader) :
  hasError (readNext x) = false →
  ∃ t ts, error x = NoError ∧ pending x = t :: ts ∧
          readNext x = mkReader (Some t) ts NoError.
Proof.
  unfold readNext, hasError.
  destruct (error x) eqn:E; simpl; try discriminate.
  destruct (pending x) as [|t ts] eqn:P; simpl; try discriminate.
  intros _. by exists t, ts.
Qed.

Lemma readNext_cons (x : Reader) t ts :
  error x = NoError → pending x = t :: ts →
  readNext x = mkReader (Some t) ts NoError.
Proof. unfold readNext. by intros -> ->. Qed.

Lemma readNext_pending (x : Reader) :
  hasError (readNext x) = false →
  S (length (pending (readNext x))) = length (pending x).
Proof.
  intros H. destruct (readNext_valid x H) as (t & ts & _ & P & ->).
  by rewrite P.
Qed.

Lemma raiseError_pending (x : Reader) : pending (raiseError x) = pending x.
Proof. done. Qed.

Lemma raiseError_hasError (x : Reader) : hasError (raiseError x) = true.
Proof. done. Qed.

Lemma scanStartElement_pending (ts : list Token) :
  (length (pending (scanStartElement ts).2) ≤ length ts)%nat ∧
  ((scanStartElement ts).1 = true →
   hasError (scanStartElement ts).2 = false ∧
   (length (pending (scanStartElement ts).2) < length ts)%nat).
Proof.
  induction ts as [|t ts IH]; simpl; [split; [lia|discriminate]|].
  destruct t; simpl; try (split; [lia|]; intros; split; [done|lia]);
    try (split; [lia|discriminate]);
    (split; [lia|]; intros H; destruct IH as [_ IH];
     destruct (IH H); split; [done|lia]).
Qed.

Lemma readNextStartElement_found (x x' : Reader) :
  readNextStartElement x = (true, x') →
  hasError x' = false ∧ (length (pending x') < length (pending x))%nat.
Proof.
  unfold readNextStartElement. intros H.
  destruct (error x); try discriminate.
  pose proof (scanStartElement_pending (pending x)) as [_ Hs].
  rewrite H in Hs. simpl in Hs. by apply Hs.
Qed.

Lemma skipDepth_pending (ts : list Token) :
  ∀ depth cur, (length (pending (skipDepth ts depth cur)) ≤ length ts)%nat.
Proof.
  induction ts as [|t ts IH]; intros [|d] cur; simpl; try lia.
  destruct t; simpl;
    match goal with |- context [skipDepth ts ?d' ?c] =>
      specialize (IH d' c); lia end.
Qed.

Lemma skipCurrentElement_pending (x : Reader) :
  (length (pending (skipCurrentElement x)) ≤ length (pending x))%nat.
Proof.
  unfold skipCurrentElement.
  destruct (error x); simpl; try lia. apply skipDepth_pending.
Qed.

Lemma collectText_pending (ts : list Token) :
  ∀ acc, (length (pending (collectText ts acc).2) ≤ length ts)%nat.
Proof.
  induction ts as [|t ts IH]; intros acc; simpl; try lia.
  destruct t; simpl; try lia;
    match goal with |- context [collectText ts ?a] =>
      specialize (IH a); lia end.
Qed.

Lemma readElementText_pending (x : Reader) :
  (length (pending (readElementText x).2) ≤ length (pending x))%nat.
Proof.
  unfold readElementText. destruct (isStartElement x); simpl; try lia.
  destruct (error x); simpl; try lia. apply collectText_pending.
Qed.

End XmlFacts.

(** ** The stats reply: the loops end *)

Section StatsFacts.
Import Xml XmlFacts.

Lemma readNext_pending_le (x : Reader) :
  (length (pending (readNext x)) ≤ length (pending x))%nat.
Proof.
  unfold readNext, fail. destruct (error x); simpl; try lia.
  destruct (pending x); simpl; lia.
Qed.

Lemma statsLoop_total (fuel : nat) :
  ∀ x m h, (length (pending x) < fuel)%nat →
  ∃ x' m' h', statsLoop fuel x m h = Some (x', m', h') ∧
              (length (pending x') ≤ length (pending x))%nat.
Proof.
  induction fuel as [|fuel IH]; intros x m h Hlen; [lia|].
  simpl. pose proof (readNext_pending_le x) as Hle.
  destruct (isInvalid (readNext x)) eqn:Einv.
  { eexists _, _, _. split; [done|lia]. }
  pose proof (readNext_pending x Einv) as Hstep.
  set (x1 := readNext x) in *.
  assert (Hrec : ∀ y m1 h1,
             (length (pending y) ≤ length (pending x1))%nat →
             ∃ x' m' h', statsLoop fuel y m1 h1 = Some (x', m', h') ∧
                         (length (pending x') ≤ length (pending x))%nat).
  { intros y m1 h1 Hy. destruct (IH y m1 h1) as (x' & m' & h' & -> & ?); [lia|].
    eexists _, _, _. split; [done|lia]. }
  destruct (isEndElement x1 && String.eqb (name x1) "stats").
  { eexists _, _, _. split; [done|lia]. }
  destruct (negb (isStartElement x1)); [by apply Hrec|].
  pose proof (readElementText_pending x1) as Htext.
  destruct (String.eqb (name x1) "message").
  { destruct (readElementText x1) as [text y]. by apply Hrec. }
  destruct (String.eqb (name x1) "bc-server-running"); [|by apply Hrec].
  destruct (readElementText x1) as [text y].
  destruct (String.eqb (QStr.trimmed text) "down"); by apply Hrec.
Qed.

Lemma statsDocument_total (fuel : nat) :
  ∀ x m h, (length (pending x) < fuel)%nat →
  is_Some (statsDocument fuel x m h).
Proof.
  induction fuel as [|fuel IH]; intros x m h Hlen; [lia|].
  simpl. destruct (readNextStartElement x) as [found x1] eqn:Escan.
  destruct found; simpl; [|done].
  destruct (readNextStartElement_found _ _ Escan) as [_ Hlt].
  destruct (String.eqb (name x1) "stats"); [|apply IH; lia].
  destruct (statsLoop_total fuel x1 m h) as (x' & m' & h' & -> & Hle); [lia|].
  apply IH. lia.
Qed.

(** Every stats reply stands for a message. *)
Lemma statsMessage_total (reply : QNetworkReply) :
  is_Some (statsMessage reply).
Proof.
  unfold statsMessage. destruct (errorString reply); [done|].
  destruct (statsDocument_total (fuel_for (readAll reply))
              (Xml.open (readAll reply)) "" false) as [[m h] ->].
  - unfold fuel_for. simpl. lia.
  - done.
Qed.

Lemma updateStatsReply_total (s : DVRServer) (reply : option QNetworkReply) :
  is_Some (updateStatsReply s reply).
Proof.
  destruct reply as [r|]; simpl; [|done].
  destruct (statsMessage_total r) as [m ->].
  by destruct (negb _).
Qed.

(** More fuel does not change what a loop gives. *)
Lemma statsLoop_fuel (fuel : nat) :
  ∀ x m h r, statsLoop fuel x m h = Some r →
  ∀ fuel', (fuel ≤ fuel')%nat → statsLoop fuel' x m h = Some r.
Proof.
  induction fuel as [|fuel IH]; intros x m h r H fuel' Hle; [done|].
  destruct fuel' as [|fuel']; [lia|].
  assert (Hle' : (fuel ≤ fuel')%nat) by lia.
  simpl in *.
  destruct (isInvalid (readNext x)); [done|].
  destruct (isEndElement _ && _); [done|].
  destruct (negb _); [by eapply IH|].
  destruct (String.eqb _ "message").
  { destruct (readElementText _). by eapply IH. }
  destruct (String.eqb _ "bc-server-running"); [|by eapply IH].
  destruct (readElementText _).
  destruct (String.eqb _ "down"); by eapply IH.
Qed.

Lemma statsLoop_agree (f1 f2 : nat) x m h r1 r2 :
  statsLoop f1 x m h = Some r1 → statsLoop f2 x m h = Some r2 → r1 = r2.
Proof.
  intros H1 H2.
  pose proof (statsLoop_fuel _ _ _ _ _ H1 (f1 `max` f2)%nat) as H1'.
  pose proof (statsLoop_fuel _ _ _ _ _ H2 (f1 `max` f2)%nat) as H2'.
  rewrite H1' in H2' by lia. injection H2' as ->; [done|lia].
Qed.

End StatsFacts.

(** ** The stats reply: children in document order *)

Section StatsChildren.
Import Xml XmlFacts.

Lemma statsLoop_token (fuel : nat) c1 c2 ts e m h :
  statsLoop fuel (mkReader c1 ts e) m h = statsLoop fuel (mkReader c2 ts e) m h.
Proof. destruct fuel; [done|]. simpl. unfold readNext, fail. simpl. done. Qed.

Lemma statsLoop_S (fuel : nat) x m h :
  statsLoop (S fuel) x m h =
    let x1 := readNext x in
    if isInvalid x1 then Some (x1, m, h)
    else if isEndElement x1 && String.eqb (name x1) "stats" then
      Some (x1, m, h)
    else if negb (isStartElement x1) then statsLoop fuel x1 m h
    else if String.eqb (name x1) "message" then
      let '(text, x2) := readElementText x1 in
      statsLoop fuel x2 (if QStr.isEmpty text then m else text) true
    else if String.eqb (name x1) "bc-server-running" then
      let '(text, x2) := readElementText x1 in
      if String.eqb (QStr.trimmed text) "down" then
        statsLoop fuel x2 "Server process stopped" h
      else statsLoop fuel x2 m h
    else statsLoop fuel x1 m h.
Proof. done. Qed.

(** One child is one step of [childEffect]. *)
Lemma statsLoop_child (c : QString * QString) cur rest m h fuel r :
  c.1 ≠ "stats" →
  statsLoop fuel (mkReader None rest NoError)
            (childEffect (m, h) c).1 (childEffect (m, h) c).2 = Some r →
  statsLoop (S (S (S fuel))) (mkReader cur (element c.1 c.2 ++ rest) NoError)
            m h = Some r.
Proof.
  destruct c as [n t]. cbn [fst snd]. intros Hn H.
  unfold childEffect in H. cbn [fst snd] in H.
  rewrite statsLoop_S. cbn -[statsLoop QStr.trimmed QStr.isEmpty String.eqb].
  destruct (String.eqb n "message") eqn:Em.
  { rewrite (statsLoop_token _ _ None).
    eapply statsLoop_fuel; [exact H|lia]. }
  destruct (String.eqb n "bc-server-running") eqn:Eb.
  { change ("" +:+ t) with t.
    destruct (String.eqb (QStr.trimmed t) "down");
      rewrite (statsLoop_token _ _ None);
      (eapply statsLoop_fuel; [exact H|lia]). }
  assert (String.eqb n "stats" = false) as Es by by apply String.eqb_neq.
  rewrite statsLoop_S. cbn -[statsLoop QStr.trimmed QStr.isEmpty String.eqb].
  rewrite statsLoop_S. cbn -[statsLoop QStr.trimmed QStr.isEmpty String.eqb].
  rewrite Es. cbn [andb].
  rewrite (statsLoop_token _ _ None). done.
Qed.

Lemma elements_cons (c : QString * QString) cs :
  elements (c :: cs) = element c.1 c.2 ++ elements cs.
Proof. done. Qed.

Lemma statsLoop_children (cs : list (QString * QString)) :
  ∀ cur rest m h fuel r,
  (∀ c, c ∈ cs → c.1 ≠ "stats") →
  statsLoop fuel (mkReader None rest NoError)
            (fold_left childEffect cs (m, h)).1
            (fold_left childEffect cs (m, h)).2 = Some r →
  ∃ fuel', statsLoop fuel' (mkReader cur (elements cs ++ rest) NoError) m h
           = Some r.
Proof.
  induction cs as [|c cs IH]; intros cur rest m h fuel r Hn H.
  - exists fuel. simpl. by rewrite (statsLoop_token _ _ None).
  - cbn [fold_left] in H.
    destruct (childEffect (m, h) c) as [m1 h1] eqn:Ec.
    destruct (IH None rest m1 h1 fuel r) as [fuel1 H1].
    + intros c' Hc'. apply Hn. by right.
    + done.
    + exists (S (S (S fuel1))).
      rewrite elements_cons, <- app_assoc.
      apply statsLoop_child; [apply Hn; by left|].
      by rewrite Ec.
Qed.

(** The message of a reply whose [stats] element holds the children
    [cs]: the children are applied in document order. *)
Lemma statsMessage_children (cs : list (QString * QString)) :
  (∀ c, c ∈ cs → c.1 ≠ "stats") →
  statsMessage (statsReply cs) =
    Some (let st := fold_left childEffect cs ("", false) in
          if st.2 then st.1
          else "Status request error: invalid server response").
Proof.
  intros Hn. unfold statsMessage, statsReply. simpl errorString. cbv iota.
  simpl readAll. unfold fuel_for.
  set (body := document "stats" (elements cs)).
  set (st := fold_left childEffect cs ("", false)).
  assert (statsDocument (S (S (length body))) (Xml.open body) "" false
          = Some st) as ->; [|by destruct st].
  change (statsDocument (S (S (length body))) (Xml.open body) "" false) with
    (match statsLoop (S (length body))
             (mkReader (Some (StartElement "stats" []))
                (elements cs ++ [EndElement "stats"; EndDocument]) NoError)
             "" false with
     | Some (x, m, h) => statsDocument (S (length body)) x m h
     | None => None
     end).
  destruct (statsLoop_total (S (length body))
              (mkReader (Some (StartElement "stats" []))
                 (elements cs ++ [EndElement "stats"; EndDocument]) NoError)
              "" false) as (x' & m' & h' & Hrun & _).
  { subst body. unfold document. simpl. rewrite !length_app. simpl. lia. }
  rewrite Hrun.
  destruct (statsLoop_children cs (Some (StartElement "stats" []))
              [EndElement "stats"; EndDocument] "" false 1%nat
              (mkReader (Some (EndElement "stats")) [EndDocument] NoError,
               st.1, st.2)) as [fuel' Hch]; [done|done|].
  pose proof (statsLoop_agree _ _ _ _ _ _ _ Hrun Hch) as Heq.
  injection Heq as -> -> ->. simpl. by destruct st.
Qed.

End StatsChildren.

(** ** The status message *)

Section StatusMessage.

Lemma childEffect_message (st : QString * bool) (t : QString) :
  childEffect st ("message", t) = (if QStr.isEmpty t then st.1 else t, true).
Proof. done. Qed.

Lemma fold_childEffect_had (cs : list (QString * QString)) :
  ∀ m h txt, (h = true ∨ ("message", txt) ∈ cs) →
  (fold_left childEffect cs (m, h)).2 = true.
Proof.
  induction cs as [|[n t] cs IH]; intros m h txt [Hh|Hin].
  - done.
  - by apply elem_of_nil in Hin.
  - simpl. unfold childEffect at 2. simpl.
    destruct (String.eqb n "message"); [by eapply (IH _ _ txt); left|].
    destruct (String.eqb n "bc-server-running");
      by eapply (IH _ _ txt); left.
  - apply elem_of_cons in Hin as [Heq|Hin].
    + injection Heq as <- <-. simpl. eapply (IH _ _ txt). by left.
    + simpl. destruct (childEffect (m, h) (n, t)) as [m1 h1].
      eapply (IH _ _ txt). by right.
Qed.

Lemma fold_childEffect_stopped (cs : list (QString * QString)) :
  ∀ h, (∀ txt, ("message", txt) ∈ cs → txt = "") →
  (fold_left childEffect cs ("Server process stopped", h)).1
  = "Server process stopped".
Proof.
  induction cs as [|[n t] cs IH]; intros h Hmsg; [done|].
  simpl. unfold childEffect at 2. simpl.
  destruct (String.eqb_spec n "message") as [->|_].
  - rewrite (Hmsg t) by by left. simpl.
    apply IH. intros txt Hin. apply Hmsg. by right.
  - assert (∀ txt, ("message", txt) ∈ cs → txt = "") as Hmsg'
      by (intros txt Hin; apply Hmsg; by right).
    destruct (String.eqb n "bc-server-running"); [|by apply IH].
    destruct (String.eqb (QStr.trimmed t) "down"); by apply IH.
Qed.

End StatusMessage.

(** Among plain text children without a child named [stats]: a
    [bc-server-running] child that is "down", with a [message] child
    somewhere and no [message] child with a text after it. *)
Lemma server_down_plain (pre post : list (QString * QString)) (t : QString) :
  QStr.trimmed t = "down" →
  (∀ c, c ∈ pre ++ post → c.1 ≠ "stats") →
  (∀ txt, ("message", txt) ∈ post → txt = "") →
  (∃ txt, ("message", txt) ∈ pre ++ post) →
  statsMessage (statsReply (pre ++ ("bc-server-running", t) :: post))
  = Some "Server process stopped".
Proof.
  intros Ht Hn Hpost [txt Hmsg].
  rewrite statsMessage_children.
  - rewrite fold_left_app. cbn [fold_left].
    destruct (fold_left childEffect pre ("", false)) as [m h] eqn:Epre.
    unfold childEffect at 2 4. cbn [fst snd]. rewrite Ht.
    change (String.eqb "bc-server-running" "message") with false.
    change (String.eqb "bc-server-running" "bc-server-running") with true.
    change (String.eqb "down" "down") with true. cbv iota.
    rewrite fold_childEffect_stopped by done.
    assert ((fold_left childEffect post ("Server process stopped", h)).2 = true)
      as ->; [|done].
    apply elem_of_app in Hmsg as [Hin|Hin].
    + apply (fold_childEffect_had post _ _ txt). left.
      pose proof (fold_childEffect_had pre "" false txt (or_intror Hin)) as Hh.
      by rewrite Epre in Hh.
    + apply (fold_childEffect_had post _ _ txt). by right.
  - intros c Hc. apply elem_of_app in Hc as [Hc|Hc].
    + apply Hn, elem_of_app. by left.
    + apply elem_of_cons in Hc as [->|Hc]; [done|].
      apply Hn, elem_of_app. by right.
Qed.

(** C6, as stated, fails: a [message] element after the
    [bc-server-running] element replaces the message again. *)
Lemma server_down_then_message :
  QStr.trimmed "down" = "down" ∧
  statsMessage (statsReply [("bc-server-running", "down"); ("message", "OK")])
  = Some "OK".
Proof. split; reflexivity. Qed.

(** The same reply without any [message] element is an invalid server
    response. *)
Lemma server_down_alone :
  statsMessage (statsReply [("bc-server-running", "down")])
  = Some "Status request error: invalid server response".
Proof. reflexivity. Qed.

(** ** The alert message and its notification *)

(** In the stats handler the notification goes out exactly when the
    message differs from the one stored. *)
Lemma updateStatsReply_notifies (s : DVRServer) (reply : QNetworkReply) :
  ∃ message, statsMessage reply = Some message ∧
    updateStatsReply s (Some reply) =
      Some (if bool_decide (message = m_statusAlertMessage s) then (s, [])
            else (set_statusAlertMessage message s,
                  [statusAlertMessageChanged message])).
Proof.
  destruct (statsMessage_total reply) as [message Hm].
  exists message. split; [done|]. unfold updateStatsReply. rewrite Hm.
  destruct (String.eqb_spec message (m_statusAlertMessage s)).
  - by rewrite bool_decide_eq_true_2.
  - by rewrite bool_decide_eq_false_2.
Qed.

(** A second reply with the same message is silent. *)
Lemma updateStatsReply_repeated (s s1 : DVRServer) sigs (r1 r2 : QNetworkReply) :
  statsMessage r1 = statsMessage r2 →
  updateStatsReply s (Some r1) = Some (s1, sigs) →
  updateStatsReply s1 (Some r2) = Some (s1, []).
Proof.
  intros Heq H1.
  destruct (updateStatsReply_notifies s r1) as (m & Hm & Hrun).
  destruct (updateStatsReply_notifies s1 r2) as (m2 & Hm2 & ->).
  assert (m2 = m) as -> by congruence.
  rewrite Hrun in H1.
  assert (m_statusAlertMessage s1 = m) as Hs1.
  { case_bool_decide; injection H1 as <- <-; done. }
  by rewrite bool_decide_eq_true_2.
Qed.

(** C7: the disconnect handler notifies although the alert message was
    empty before and is empty after.  The stats handler compares first
    ([updateStatsReply_notifies]); [disconnected] does not. *)
Theorem disconnected_notifies_unchanged :
  m_statusAlertMessage (newServer ∅) = "" ∧
  m_statusAlertMessage (disconnected (newServer ∅)).1 = "" ∧
  (disconnected (newServer ∅)).2 = [statusAlertMessageChanged ""].
Proof. repeat split; reflexivity. Qed.

(** ** The polling timer *)

(** C5, as amended.  The timer follows the session at every poll: after
    [updateCameras] (the slot of login success and of the timer itself)
    the timer is active exactly when the session is online.  The
    disconnect handler leaves the timer as it is; the timer's next
    firing, which finds the session offline, stops it. *)
Theorem timer_follows_polls (s : DVRServer) :
  (is_Some (m_refreshTimer (updateCameras s).1)
   ↔ api_isOnline (updateCameras s).1 = true) ∧
  m_refreshTimer (transportDisconnected s).1 = m_refreshTimer s ∧
  api_isOnline (transportDisconnected s).1 = false ∧
  m_refreshTimer (updateCameras (transportDisconnected s).1).1 = None.
Proof.
  assert (Htake : ∀ cams s0,
             m_refreshTimer (takeAll cams s0).1 = m_refreshTimer s0 ∧
             api_isOnline (takeAll cams s0).1 = api_isOnline s0).
  { induction cams as [|c cams IH]; intros s0; [done|].
    simpl. specialize (IH (setOnline c false (set_cameras cams s0))).
    destruct (takeAll cams _) as [s1 sigs]. exact IH. }
  repeat split.
  - unfold updateCameras. destruct (api_isOnline s) eqn:E; simpl.
    + intros _. by destruct (m_refreshTimer s).
    + by intros [? ?].
  - unfold updateCameras. destruct (api_isOnline s) eqn:E; simpl.
    + intros _. by destruct (m_refreshTimer s) eqn:Et; simpl; rewrite ?Et.
    + rewrite E. discriminate.
  - unfold transportDisconnected, disconnected.
    pose proof (Htake (m_cameras (set_api_isOnline false s))
                      (set_api_isOnline false s)) as [Ht _].
    destruct (takeAll _ _) as [s1 sigs]. exact Ht.
  - unfold transportDisconnected, disconnected.
    pose proof (Htake (m_cameras (set_api_isOnline false s))
                      (set_api_isOnline false s)) as [_ Ho].
    destruct (takeAll _ _) as [s1 sigs]. exact Ho.
  - unfold transportDisconnected, disconnected.
    pose proof (Htake (m_cameras (set_api_isOnline false s))
                      (set_api_isOnline false s)) as [_ Ho].
    destruct (takeAll _ _) as [s1 sigs]. simpl in *.
    unfold updateCameras. simpl. by rewrite Ho.
Qed.

(** C5, as stated, fails: after a login and a disconnect the session is
    offline and the timer is still active. *)
Lemma timer_active_after_disconnect :
  let online := (loginSuccessful (newServer ∅)).1 in
  let offline := (transportDisconnected online).1 in
  api_isOnline offline = false ∧ m_refreshTimer offline = Some 60000.
Proof. split; reflexivity. Qed.

(** ** Disconnect *)

Section Disconnect.

Lemma takeAll_fields (cams : list DVRCamera) :
  ∀ s, m_cameras (takeAll cams s).1 = [] ∧
       devicesLoaded (takeAll cams s).1 = devicesLoaded s ∧
       m_statusAlertMessage (takeAll cams s).1 = m_statusAlertMessage s.
Proof.
  induction cams as [|c cams IH]; intros s; [done|].
  simpl. specialize (IH (setOnline c false (set_cameras cams s))).
  destruct (takeAll cams _) as [s1 sigs]. exact IH.
Qed.

Lemma takeAll_signals (cams : list DVRCamera) :
  ∀ s, (takeAll cams s).2 =
       concat (map (λ c, [cameraRemoved c false; camera_removed c]) cams).
Proof.
  induction cams as [|c cams IH]; intros s; [done|].
  simpl. specialize (IH (setOnline c false (set_cameras cams s))).
  destruct (takeAll cams _) as [s1 sigs]. simpl in *. rewrite IH.
  unfold isOnline, setOnline. simpl. by rewrite lookup_insert_eq.
Qed.

Lemma takeAll_offline (cams : list DVRCamera) :
  ∀ s c, (c ∈ cams ∨ isOnline s c = false) →
         isOnline (takeAll cams s).1 c = false.
Proof.
  induction cams as [|c0 cams IH]; intros s c H.
  - destruct H as [H|H]; [by apply elem_of_nil in H|done].
  - simpl. specialize (IH (setOnline c0 false (set_cameras cams s)) c).
    destruct (takeAll cams _) as [s1 sigs]. simpl in *. apply IH.
    destruct (decide (c = c0)) as [->|Hne].
    + right. unfold isOnline, setOnline. simpl. by rewrite lookup_insert_eq.
    + destruct H as [H|H].
      * apply elem_of_cons in H as [H|H]; [done|by left].
      * right. unfold isOnline, setOnline in *. simpl.
        rewrite lookup_insert_ne; [done|].
        intros Heq. apply Hne. destruct c, c0. simpl in Heq. by subst.
Qed.

End Disconnect.

(** C9.  From a state with cameras and an alert message, [disconnected]
    leaves no camera in the set, every former camera offline and told
    [cameraRemoved] while offline, the alert message empty and
    [devicesLoaded] false. *)
Theorem disconnected_clears (s : DVRServer) :
  m_cameras s ≠ [] →
  m_statusAlertMessage s ≠ "" →
  m_cameras (disconnected s).1 = [] ∧
  (∀ c, c ∈ m_cameras s →
        isOnline (disconnected s).1 c = false ∧
        cameraRemoved c false ∈ (disconnected s).2) ∧
  (disconnected s).2 =
    concat (map (λ c, [cameraRemoved c false; camera_removed c]) (m_cameras s))
    ++ [statusAlertMessageChanged ""] ∧
  m_statusAlertMessage (disconnected s).1 = "" ∧
  devicesLoaded (disconnected s).1 = false.
Proof.
  intros _ _. unfold disconnected.
  pose proof (takeAll_fields (m_cameras s) s) as (Hc & _ & _).
  pose proof (takeAll_signals (m_cameras s) s) as Hsig.
  pose proof (takeAll_offline (m_cameras s) s) as Hoff.
  destruct (takeAll (m_cameras s) s) as [s1 sigs]. simpl in *.
  repeat split; try done.
  - apply Hoff. by left.
  - subst sigs. apply elem_of_app. left.
    apply list_elem_of_In, in_concat.
    exists [cameraRemoved c false; camera_removed c]. split; [|by left].
    apply in_map_iff. exists c. split; [done|]. by apply list_elem_of_In.
  - by rewrite Hsig.
Qed.

Lemma disconnected_clears_witness :
  let s := mkServer [mkCamera 1; mkCamera 2] true "Server process stopped"
                    (Some 60000) ∅ false {[1 := true; 2 := true]} in
  m_cameras (disconnected s).1 = [] ∧
  (disconnected s).2 =
    [cameraRemoved (mkCamera 1) false; camera_removed (mkCamera 1);
     cameraRemoved (mkCamera 2) false; camera_removed (mkCamera 2);
     statusAlertMessageChanged ""] ∧
  m_statusAlertMessage (disconnected s).1 = "" ∧
  devicesLoaded (disconnected s).1 = false.
Proof.
  intros s.
  destruct (disconnected_clears s) as (H1 & _ & H3 & H4 & H5);
    [discriminate|discriminate|].
  split; [exact H1|]. split; [exact H3|]. split; [exact H4|exact H5].
Defined.

(** ** Certificate pinning *)

Section TrustFacts.

Variable sha1 : QByteArray → QByteArray.
Hypothesis sha1_length : ∀ m, String.length (sha1 m) = 20%nat.

Lemma digest_not_empty (c : QSslCertificate) :
  QStr.isEmpty (digest sha1 c) = false.
Proof.
  unfold digest. pose proof (sha1_length (toDer c)) as H.
  by destruct (sha1 (toDer c)).
Qed.

(** C3.  With no digest pinned, [isKnownCertificate certA] pins the
    digest of [certA] and answers true; from then on a certificate is
    known exactly when its digest is the pinned one, and asking leaves
    the server as it is. *)
Theorem trust_on_first_use (s : DVRServer) (certA : QSslCertificate) :
  readSetting s "sslDigest" = "" →
  let first := isKnownCertificate sha1 s certA in
  let s' := first.2.1 in
  first.1 = true ∧
  readSetting s' "sslDigest" = digest sha1 certA ∧
  ∀ cert,
    ((isKnownCertificate sha1 s' cert).1 = true
     ↔ digest sha1 cert = digest sha1 certA) ∧
    (isKnownCertificate sha1 s' cert).2 = (s', []).
Proof.
  intros Hnone. unfold isKnownCertificate at 1. rewrite Hnone. simpl.
  assert (Hpin : readSetting
            (set_settings (<["sslDigest" := digest sha1 certA]> (settings s)) s)
            "sslDigest" = digest sha1 certA).
  { unfold readSetting. simpl. by rewrite lookup_insert_eq. }
  split; [done|]. split; [exact Hpin|].
  intros cert. unfold isKnownCertificate. rewrite Hpin.
  rewrite digest_not_empty. simpl. split; [|done].
  apply String.eqb_eq.
Qed.

End TrustFacts.

Lemma fill_length (n : nat) : ∀ m, String.length (fill n m) = n.
Proof.
  induction n as [|n IH]; intros m; [done|].
  destruct m; simpl; by rewrite IH.
Qed.

Lemma trust_on_first_use_witness :
  let certA := mkCertificate "certificate A" in
  let certB := mkCertificate "certificate B" in
  let s' := (isKnownCertificate fill20 (newServer ∅) certA).2.1 in
  (isKnownCertificate fill20 (newServer ∅) certA).1 = true ∧
  (isKnownCertificate fill20 s' certB).1 = false ∧
  (isKnownCertificate fill20 s' certA).1 = true.
Proof.
  intros certA certB s'.
  destruct (trust_on_first_use fill20 (fill_length 20) (newServer ∅) certA)
    as (H1 & _ & H3); [reflexivity|].
  split; [exact H1|]. split.
  - destruct (H3 certB) as [Hiff _].
    apply not_true_is_false. intros E. apply Hiff in E. discriminate E.
  - destruct (H3 certA) as [Hiff _]. by apply Hiff.
Defined.

(** ** The device-list reply *)

Section ReconcileFacts.
Import Xml XmlFacts.

Variable toUInt : QString → option N.
Variable parseXML : DVRCamera → Xml.Reader → bool * Xml.Reader.

Local Abbreviation devicesTurn := (devicesTurn toUInt parseXML).
Local Abbreviation devicesLoop := (devicesLoop toUInt parseXML).
Local Abbreviation devicesDocument := (devicesDocument toUInt parseXML).
Local Abbreviation parseCameras := (parseCameras toUInt parseXML).
Local Abbreviation updateCamerasReply := (updateCamerasReply toUInt parseXML).
Local Abbreviation reconciled := (reconciled toUInt parseXML).
Local Abbreviation observedIds := (observedIds toUInt parseXML).

Ltac psimpl :=
  cbn [server signals idSet xml m_cameras devicesLoaded set_cameras set_xml
       map app result negb].
Tactic Notation "psimpl" "in" hyp(H) :=
  cbn [server signals idSet xml m_cameras devicesLoaded set_cameras set_xml
       map app result negb] in H.

(** *** One turn *)

Lemma marked_fields (s : DVRServer) (id : Z) :
  m_cameras (marked s id) = m_cameras s ∧
  devicesLoaded (marked s id) = devicesLoaded s ∧
  isOnline (marked s id) (mkCamera id) = true.
Proof.
  unfold marked, getCamera, setOnline, isOnline. simpl.
  rewrite lookup_insert_eq. by destruct (cameraData s !! id).
Qed.

(** What a turn makes of the parse: either only the reader moves, or
    a device entry with a readable id is taken in. *)
Lemma devicesTurn_cases (p : Parse) :
  (∃ x, result (devicesTurn p) = set_xml x p ∧
        (hasError (xml p) = true → devicesTurn p = Break (set_xml x p)) ∧
        (hasError x = false → hasError (xml p) = false))
  ∨
  (∃ x u ok x',
      let id := int_of_uint u in
      let s := marked (server p) id in
      hasError (xml p) = false ∧
      parseXML (mkCamera id) x = (ok, x') ∧
      devicesTurn p =
        Continue
          (if ok then
             if contains (m_cameras s) (mkCamera id) then
               mkParse x' ({[id]} ∪ idSet p) s (signals p)
             else
               mkParse x' ({[id]} ∪ idSet p)
                 (set_cameras (m_cameras s ++ [mkCamera id]) s)
                 (signals p ++ [cameraAdded (mkCamera id) true])
           else
             mkParse (if hasError x' then x' else raiseError x')
                     ({[id]} ∪ idSet p) s (signals p))).
Proof.
  unfold devicesTurn.
  destruct (isInvalid (readNext (xml p))) eqn:Einv.
  { left. eexists. split; [done|]. split; [done|].
    unfold isInvalid in Einv. congruence. }
  assert (hasError (xml p) = false) as Hok.
  { destruct (readNext_valid _ Einv) as (t & ts & He & _).
    by apply hasError_false. }
  assert (∀ x t, result t = set_xml x p →
            (hasError (xml p) = true → t = Break (set_xml x p)) ∧
            (hasError x = false → hasError (xml p) = false)) as Hmove.
  { intros x t _. split; [congruence|done]. }
  set (x := readNext (xml p)) in *.
  destruct (isEndElement x && _); [left; exists x; split; [done|by apply Hmove]|].
  destruct (negb (isStartElement x));
    [left; exists x; split; [done|by apply Hmove]|].
  destruct (String.eqb (name x) "device");
    [|left; exists x; split; [done|by apply Hmove]].
  destruct (value (attributes x) "id") as [idv|];
    [|left; exists x; split; [done|by apply Hmove]].
  destruct (toUInt idv) as [u|];
    [|left; exists (raiseError x); split; [done|by apply Hmove]].
  right. exists x, u.
  unfold getCamera at 1. cbv zeta. cbv iota beta.
  destruct (parseXML {| uniqueId := int_of_uint u |} x) as [ok x'] eqn:Ep.
  exists ok, x'. split; [done|]. split; [done|].
  destruct (marked_fields (server p) (int_of_uint u)) as (_ & _ & Hon).
  unfold marked, getCamera in *. cbn [fst snd] in *. rewrite Hon.
  destruct ok; cbn [negb]; [by destruct (contains _ _)|done].
Qed.

(** *** What a parse does to the server *)

Lemma extends_refl (p : Parse) x : extends p (set_xml x p).
Proof.
  exists []. simpl. rewrite !app_nil_r. by repeat split.
Qed.

Lemma extends_trans (p1 p2 p3 : Parse) :
  extends p1 p2 → extends p2 p3 → extends p1 p3.
Proof.
  intros (a1 & Hc1 & Hs1 & Hd1 & Hi1) (a2 & Hc2 & Hs2 & Hd2 & Hi2).
  exists (a1 ++ a2). rewrite Hc2, Hc1, Hs2, Hs1, Hd2, Hd1, map_app, !app_assoc.
  repeat split; try done. set_solver.
Qed.

Lemma devicesTurn_extends (p : Parse) : extends p (result (devicesTurn p)).
Proof.
  destruct (devicesTurn_cases p) as [(x & -> & _)|(x & u & ok & x' & H)].
  { apply extends_refl. }
  cbv zeta in H. destruct H as (_ & _ & ->).
  destruct (marked_fields (server p) (int_of_uint u)) as (Hc & Hd & _).
  destruct ok; [destruct (contains _ _)|]; psimpl.
  - exists []. psimpl. rewrite !app_nil_r, Hc, Hd.
    repeat split; try done. set_solver.
  - exists [mkCamera (int_of_uint u)]. psimpl. rewrite Hc, Hd.
    repeat split; try done. set_solver.
  - exists []. psimpl. rewrite !app_nil_r, Hc, Hd.
    repeat split; try done. set_solver.
Qed.

Lemma devicesLoop_extends (fuel : nat) :
  ∀ p p', devicesLoop fuel p = Some p' → extends p p'.
Proof.
  induction fuel as [|fuel IH]; intros p p' H; [done|].
  simpl in H. pose proof (devicesTurn_extends p) as Ht.
  destruct (devicesTurn p) as [p1|p1]; simpl in Ht.
  - by injection H as <-.
  - eapply extends_trans; [exact Ht|by apply IH].
Qed.

Lemma devicesTurn_covered (p : Parse) :
  covered p → covered (result (devicesTurn p)).
Proof.
  intros Hcov.
  destruct (devicesTurn_cases p) as [(x & -> & _ & Hx)|(x & u & ok & x' & H)].
  { intros Herr. psimpl. by apply Hcov, Hx. }
  cbv zeta in H. destruct H as (Hok & _ & ->).
  destruct (marked_fields (server p) (int_of_uint u)) as (Hc & _ & _).
  destruct ok; [destruct (contains _ _) eqn:Ec|]; psimpl.
  - intros _ id Hin. psimpl. psimpl in Hin. rewrite Hc.
    apply elem_of_union in Hin as [Hin|Hin].
    + apply elem_of_singleton in Hin as ->.
      apply bool_decide_eq_true in Ec. by rewrite Hc in Ec.
    + by apply Hcov.
  - intros _ id Hin. psimpl. psimpl in Hin. rewrite Hc. apply elem_of_app.
    apply elem_of_union in Hin as [Hin|Hin].
    + apply elem_of_singleton in Hin as ->. right. by left.
    + left. by apply Hcov.
  - intros Herr. psimpl in Herr.
    destruct (hasError x') eqn:E; [congruence|discriminate].
Qed.

Lemma devicesLoop_covered (fuel : nat) :
  ∀ p p', devicesLoop fuel p = Some p' → covered p → covered p'.
Proof.
  induction fuel as [|fuel IH]; intros p p' H Hcov; [done|].
  simpl in H. pose proof (devicesTurn_covered p Hcov) as Ht.
  destruct (devicesTurn p) as [p1|p1]; simpl in Ht.
  - by injection H as <-.
  - by eapply IH.
Qed.

Lemma devicesDocument_extends (fuel : nat) :
  ∀ p b p', devicesDocument fuel p = Some (b, p') → extends p p'.
Proof.
  induction fuel as [|fuel IH]; intros p b p' H; [done|].
  simpl in H. destruct (readNextStartElement (xml p)) as [found x].
  destruct found; simpl in H.
  - destruct (String.eqb (name x) "devices").
    + destruct (devicesLoop fuel (set_xml x p)) as [p1|] eqn:El; [|done].
      injection H as <- <-.
      eapply extends_trans; [apply (extends_refl p x)|].
      by eapply devicesLoop_extends.
    + eapply extends_trans; [apply (extends_refl p (skipCurrentElement x))|].
      by eapply IH.
  - injection H as <- <-. apply extends_refl.
Qed.

Lemma devicesDocument_covered (fuel : nat) :
  ∀ p b p', devicesDocument fuel p = Some (b, p') →
            idSet p = ∅ → covered p'.
Proof.
  induction fuel as [|fuel IH]; intros p b p' H Hempty; [done|].
  simpl in H. destruct (readNextStartElement (xml p)) as [found x].
  destruct found; simpl in H.
  - destruct (String.eqb (name x) "devices").
    + destruct (devicesLoop fuel (set_xml x p)) as [p1|] eqn:El; [|done].
      injection H as <- <-.
      eapply devicesLoop_covered; [exact El|].
      intros _ id. simpl. rewrite Hempty. set_solver.
    + by eapply IH.
  - injection H as <- <-. intros _ id. simpl. rewrite Hempty. set_solver.
Qed.

Lemma parseCameras_extends (s : DVRServer) (reply : QNetworkReply) p :
  parseCameras s reply = Some p →
  covered p ∧
  ∃ added, m_cameras (server p) = m_cameras s ++ added ∧
           signals p = map (λ c, cameraAdded c true) added ∧
           devicesLoaded (server p) = devicesLoaded s.
Proof.
  unfold parseCameras.
  destruct (devicesDocument _ _) as [[b p1]|] eqn:Ed; [|done].
  intros [= <-].
  pose proof (devicesDocument_covered _ _ _ _ Ed eq_refl) as Hcov.
  destruct (devicesDocument_extends _ _ _ _ Ed) as (added & Hc & Hs & Hd & _).
  simpl in *. destruct b.
  - split; [done|]. by exists added.
  - split; [intros Herr; discriminate Herr|]. by exists added.
Qed.

(** *** The removal loop *)

Lemma removeAbsent_kept (ids : gset Z) (s : DVRServer) (cams : list DVRCamera) :
  (removeAbsent ids s cams).1 = filter (λ c, uniqueId c ∈ ids) cams.
Proof.
  induction cams as [|c cams IH]; [done|].
  simpl. destruct (removeAbsent ids s cams) as [kept sigs]. simpl in *.
  rewrite filter_cons. case_bool_decide.
  - rewrite decide_True by done. simpl. by rewrite IH.
  - rewrite decide_False by done. simpl. by rewrite IH.
Qed.

Lemma removeAbsent_signals (ids : gset Z) (s : DVRServer)
    (cams : list DVRCamera) :
  (removeAbsent ids s cams).2 =
    concat (map (λ c, [cameraRemoved c (isOnline s c); camera_removed c])
                (filter (λ c, uniqueId c ∉ ids) cams)).
Proof.
  induction cams as [|c cams IH]; [done|].
  simpl. destruct (removeAbsent ids s cams) as [kept sigs]. simpl in *.
  rewrite filter_cons. case_bool_decide.
  - rewrite decide_False by auto. simpl. by rewrite IH.
  - rewrite decide_True by done. simpl. by rewrite IH.
Qed.

Lemma removeAbsent_none (ids : gset Z) (s : DVRServer) (cams : list DVRCamera) :
  (∀ c, c ∈ cams → uniqueId c ∈ ids) → removeAbsent ids s cams = (cams, []).
Proof.
  induction cams as [|c cams IH]; intros Hall; [done|].
  simpl. rewrite IH by (intros c' Hc'; apply Hall; by right).
  rewrite bool_decide_eq_true_2; [done|]. apply Hall. by left.
Qed.

Lemma reconcile_cameras (wasEmpty : bool) (p : Parse) :
  m_cameras (reconcile wasEmpty p).1 =
    filter (λ c, uniqueId c ∈ idSet p) (m_cameras (server p)).
Proof.
  unfold reconcile.
  rewrite <- (removeAbsent_kept (idSet p) (server p)).
  destruct (removeAbsent _ _ _) as [kept sigs]. simpl.
  by destruct (negb _ || _).
Qed.

Lemma reconciled_inv (s : DVRServer) (reply : option QNetworkReply) :
  reconciled s reply = true →
  ∃ r p, reply = Some r ∧ errorString r = None ∧
         parseCameras s r = Some p ∧ hasError (xml p) = false ∧
         updateCamerasReply s reply =
           Some (reconcile (bool_decide (m_cameras s = [])) p).
Proof.
  unfold reconciled, updateCamerasReply.
  destruct reply as [r|]; [|done].
  destruct (errorString r) eqn:Ee; [done|].
  destruct (parseCameras s r) as [p|] eqn:Ep; [|done].
  intros Herr. apply negb_true_iff in Herr.
  exists r, p. by rewrite Herr.
Qed.

Lemma covered_cameraIds (p : Parse) (wasEmpty : bool) :
  covered p → hasError (xml p) = false →
  cameraIds (m_cameras (reconcile wasEmpty p).1) = idSet p.
Proof.
  intros Hcov Herr. rewrite reconcile_cameras. unfold cameraIds.
  apply set_eq. intros id.
  rewrite elem_of_list_to_set, list_elem_of_fmap. split.
  - intros (c & -> & Hc). by apply list_elem_of_filter in Hc as [? _].
  - intros Hid. exists (mkCamera id). split; [done|].
    apply list_elem_of_filter. split; [done|by apply Hcov].
Qed.

(** *** The same reply once more *)

(** A turn on the same reader and id set, over a server that already
    has the camera of every id the turn sees, takes the same way and
    leaves the camera list and the signals alone. *)
Lemma devicesTurn_again (p q : Parse) :
  xml q = xml p → idSet q = idSet p →
  (∀ id, id ∈ idSet (result (devicesTurn p)) →
         mkCamera id ∈ m_cameras (server q)) →
  ∃ q', devicesTurn q =
          match devicesTurn p with
          | Break _ => Break q'
          | Continue _ => Continue q'
          end ∧
        xml q' = xml (result (devicesTurn p)) ∧
        idSet q' = idSet (result (devicesTurn p)) ∧
        m_cameras (server q') = m_cameras (server q) ∧
        devicesLoaded (server q') = devicesLoaded (server q) ∧
        signals q' = signals q.
Proof.
  intros Hx Hi. unfold devicesTurn. rewrite Hx, Hi.
  set (x := readNext (xml p)).
  destruct (isInvalid x); [intros _; by exists (set_xml x q)|].
  destruct (isEndElement x && _); [intros _; by exists (set_xml x q)|].
  destruct (negb (isStartElement x)); [intros _; by exists (set_xml x q)|].
  destruct (String.eqb (name x) "device");
    [|intros _; by exists (set_xml x q)].
  destruct (value (attributes x) "id") as [idv|];
    [|intros _; by exists (set_xml x q)].
  destruct (toUInt idv) as [u|];
    [|intros _; by exists (set_xml (raiseError x) q)].
  unfold getCamera. cbv zeta. cbv iota beta.
  destruct (marked_fields (server q) (int_of_uint u)) as (Hc & Hd & _).
  unfold marked, getCamera in Hc, Hd. cbn [snd] in Hc, Hd.
  destruct (parseXML {| uniqueId := int_of_uint u |} x) as [ok x'].
  destruct ok; cbn [negb].
  - intros Hin.
    assert (contains
              (m_cameras
                 (setOnline {| uniqueId := int_of_uint u |} true
                    match cameraData (server q) !! int_of_uint u with
                    | Some _ => server q
                    | None =>
                        set_cameraData
                          (<[int_of_uint u:=false]> (cameraData (server q)))
                          (server q)
                    end)) {| uniqueId := int_of_uint u |} = true) as ->.
    { rewrite Hc. apply bool_decide_eq_true. apply Hin.
      destruct (contains _ _); psimpl;
        apply elem_of_union; left; by apply elem_of_singleton. }
    eexists. split; [by destruct (contains _ _)|].
    psimpl. repeat split; try done.
    + by destruct (contains _ _).
    + by destruct (contains _ _).
  - intros _. eexists. split; [done|]. by psimpl.
Qed.

Lemma devicesLoop_again (fuel : nat) :
  ∀ p p' q, devicesLoop fuel p = Some p' →
  xml q = xml p → idSet q = idSet p →
  (∀ id, id ∈ idSet p' → mkCamera id ∈ m_cameras (server q)) →
  ∃ q', devicesLoop fuel q = Some q' ∧
        xml q' = xml p' ∧ idSet q' = idSet p' ∧
        m_cameras (server q') = m_cameras (server q) ∧
        devicesLoaded (server q') = devicesLoaded (server q) ∧
        signals q' = signals q.
Proof.
  induction fuel as [|fuel IH]; intros p p' q H Hx Hi Hin; [done|].
  simpl in H. simpl.
  destruct (devicesTurn_again p q Hx Hi) as (q1 & -> & Hx1 & Hi1 & Hc1 & Hd1 & Hs1).
  { intros id Hid. apply Hin.
    destruct (devicesTurn p) as [p1|p1]; psimpl in Hid.
    - by injection H as <-.
    - apply devicesLoop_extends in H as (_ & _ & _ & _ & Hsub).
      by apply Hsub. }
  destruct (devicesTurn p) as [p1|p1]; psimpl in Hx1; psimpl in Hi1.
  - injection H as <-. by exists q1.
  - destruct (IH p1 p' q1 H Hx1 Hi1) as (q' & -> & ? & ? & Hc & Hd & Hs).
    { intros id Hid. rewrite Hc1. by apply Hin. }
    exists q'. rewrite Hc, Hd, Hs. by repeat split.
Qed.

Lemma devicesDocument_again (fuel : nat) :
  ∀ p b p' q, devicesDocument fuel p = Some (b, p') →
  xml q = xml p → idSet q = idSet p →
  (∀ id, id ∈ idSet p' → mkCamera id ∈ m_cameras (server q)) →
  ∃ q', devicesDocument fuel q = Some (b, q') ∧
        xml q' = xml p' ∧ idSet q' = idSet p' ∧
        m_cameras (server q') = m_cameras (server q) ∧
        devicesLoaded (server q') = devicesLoaded (server q) ∧
        signals q' = signals q.
Proof.
  induction fuel as [|fuel IH]; intros p b p' q H Hx Hi Hin; [done|].
  simpl in H. simpl. rewrite Hx.
  destruct (readNextStartElement (xml p)) as [found x].
  destruct found; cbn [negb] in *.
  - destruct (String.eqb (name x) "devices").
    + destruct (devicesLoop fuel (set_xml x p)) as [p1|] eqn:El; [|done].
      injection H as <- <-.
      destruct (devicesLoop_again fuel _ _ (set_xml x q) El)
        as (q' & -> & ?); [done|done|done|].
      by exists q'.
    + by apply (IH _ _ _ (set_xml (skipCurrentElement x) q) H).
  - injection H as <- <-. by exists (set_xml x q).
Qed.

(** *** After a reply that went through *)

Lemma reconcile_loaded (wasEmpty : bool) (p : Parse) :
  devicesLoaded (reconcile wasEmpty p).1 = true.
Proof.
  unfold reconcile. destruct (removeAbsent _ _ _) as [kept sigs].
  destruct (devicesLoaded (set_cameras kept (server p))) eqn:E; simpl; [|done].
  by destruct (wasEmpty && _).
Qed.

(** *** devicesReady *)

Lemma readyCount_app (l1 l2 : list Signal) :
  readyCount (l1 ++ l2) = (readyCount l1 + readyCount l2)%nat.
Proof. unfold readyCount. by rewrite filter_app, length_app. Qed.

Lemma readyCount_added (l : list DVRCamera) :
  readyCount (map (λ c, cameraAdded c true) l) = 0%nat.
Proof. by induction l. Qed.

Lemma readyCount_removed (ids : gset Z) (s : DVRServer) (cams : list DVRCamera) :
  readyCount (removeAbsent ids s cams).2 = 0%nat.
Proof.
  induction cams as [|c cams IH]; [done|].
  simpl. destruct (removeAbsent ids s cams) as [kept sigs].
  by case_bool_decide.
Qed.

(** *** An entry that cannot be read *)

Lemma devicesTurn_error (p : Parse) :
  hasError (xml p) = true →
  ∃ x, devicesTurn p = Break (set_xml x p) ∧ hasError x = true.
Proof.
  intros Herr.
  destruct (devicesTurn_cases p) as [(x & _ & Hb & Hx)|(x & u & ok & x' & H)].
  - exists x. split; [by apply Hb|].
    destruct (hasError x); [done|]. rewrite Hx in Herr; done.
  - cbv zeta in H. destruct H as (Hok & _). congruence.
Qed.

(** From any state of the loop: a device entry whose id is not a
    non-negative integer, or whose fields [parseXML] rejects, ends the
    loop at once with an error of the reader and with the cameras and
    signals as they were; an entry without an id attribute is passed
    over; and a reply that ends with an error of the reader is given up
    with the server and the signals of the parse. *)
Lemma bad_entry_stops_loop :
  (∀ p attrs rest idv fuel,
      error (xml p) = NoError →
      pending (xml p) = StartElement "device" attrs :: rest →
      value attrs "id" = Some idv →
      (toUInt idv = None ∨
       ∃ u, toUInt idv = Some u ∧
            (parseXML (mkCamera (int_of_uint u))
               (mkReader (Some (StartElement "device" attrs)) rest NoError)).1
            = false) →
      ∃ p', devicesLoop (S (S fuel)) p = Some p' ∧
            hasError (xml p') = true ∧
            m_cameras (server p') = m_cameras (server p) ∧
            signals p' = signals p) ∧
  (∀ p attrs rest fuel,
      error (xml p) = NoError →
      pending (xml p) = StartElement "device" attrs :: rest →
      value attrs "id" = None →
      devicesLoop (S fuel) p =
        devicesLoop fuel
          (set_xml (mkReader (Some (StartElement "device" attrs)) rest NoError)
                   p)) ∧
  (∀ s r p,
      errorString r = None →
      parseCameras s r = Some p →
      hasError (xml p) = true →
      updateCamerasReply s (Some r) = Some (server p, signals p) ∧
      devicesLoaded (server p) = devicesLoaded s ∧
      ∃ added, m_cameras (server p) = m_cameras s ++ added ∧
               signals p = map (λ c, cameraAdded c true) added).
Proof.
  split; [|split].
  - intros p attrs rest idv fuel He Hp Hid Hbad.
    assert (∀ p1, devicesTurn p = Continue p1 → hasError (xml p1) = true →
              m_cameras (server p1) = m_cameras (server p) →
              signals p1 = signals p →
              ∃ p', devicesLoop (S (S fuel)) p = Some p' ∧
                    hasError (xml p') = true ∧
                    m_cameras (server p') = m_cameras (server p) ∧
                    signals p' = signals p) as Hstop.
    { intros p1 Ht Herr Hc Hs.
      destruct (devicesTurn_error p1 Herr) as (x & Hb & Hx).
      exists (set_xml x p1). cbn [devicesLoop]. rewrite Ht, Hb.
      by repeat split. }
    unfold devicesTurn in Hstop.
    rewrite (readNext_cons _ _ _ He Hp) in Hstop.
    cbn [isInvalid hasError error isEndElement isStartElement token name
         attributes andb negb] in Hstop.
    change (String.eqb "device" "device") with true in Hstop.
    cbv iota in Hstop. rewrite Hid in Hstop.
    destruct Hbad as [Hnone|(u & Hu & Hfail)].
    + rewrite Hnone in Hstop. by eapply Hstop.
    + rewrite Hu in Hstop. unfold getCamera in Hstop. cbv zeta in Hstop.
      cbv iota beta in Hstop.
      destruct (parseXML _ _) as [ok x'] eqn:Epx. simpl in Hfail. subst ok.
      cbn [negb] in Hstop.
      destruct (marked_fields (server p) (int_of_uint u)) as (Hc & _ & _).
      eapply Hstop; [done| |exact Hc|done].
      psimpl. by destruct (hasError x') eqn:E.
  - intros p attrs rest fuel He Hp Hid.
    cbn [devicesLoop]. unfold devicesTurn.
    rewrite (readNext_cons _ _ _ He Hp).
    cbn [isInvalid hasError error isEndElement isStartElement token name
         attributes andb negb].
    change (String.eqb "device" "device") with true. cbv iota.
    by rewrite Hid.
  - intros s r p He Hp Herr.
    unfold updateCamerasReply. rewrite He, Hp, Herr.
    destruct (parseCameras_extends s r p Hp) as (_ & added & Hc & Hs & Hd).
    split; [done|]. split; [done|]. by exists added.
Qed.

(** [parseXML] reads forward: it leaves no more tokens pending than it
    found. *)
Hypothesis parseXML_forward :
  ∀ c x, (length (pending (parseXML c x).2) ≤ length (pending x))%nat.

(** *** The loops end *)

Lemma devicesTurn_pending (p p' : Parse) :
  devicesTurn p = Continue p' →
  (length (pending (xml p')) < length (pending (xml p)))%nat.
Proof.
  unfold devicesTurn.
  destruct (isInvalid (readNext (xml p))) eqn:Einv; [discriminate|].
  pose proof (readNext_pending _ Einv) as Hstep.
  set (x := readNext (xml p)) in *.
  destruct (isEndElement x && _); [discriminate|].
  destruct (negb (isStartElement x)).
  { intros [= <-]. simpl. lia. }
  destruct (String.eqb (name x) "device"); [|intros [= <-]; simpl; lia].
  destruct (value (attributes x) "id") as [idv|]; [|intros [= <-]; simpl; lia].
  destruct (toUInt idv) as [u|]; [|intros [= <-]; simpl; lia].
  destruct (getCamera (server p) (int_of_uint u)) as [camera s].
  pose proof (parseXML_forward camera x) as Hfwd.
  destruct (parseXML camera x) as [ok x'].
  destruct ok; simpl.
  - destruct (contains _ _); intros [= <-]; simpl in *; lia.
  - destruct (hasError x'); intros [= <-]; simpl in *; lia.
Qed.

Lemma devicesLoop_total (fuel : nat) :
  ∀ p, (length (pending (xml p)) < fuel)%nat →
  ∃ p', devicesLoop fuel p = Some p'.
Proof.
  induction fuel as [|fuel IH]; intros p Hlen; [lia|].
  simpl. destruct (devicesTurn p) as [p'|p'] eqn:Et; [by eexists|].
  apply IH. apply devicesTurn_pending in Et. lia.
Qed.

Lemma devicesDocument_total (fuel : nat) :
  ∀ p, (length (pending (xml p)) < fuel)%nat →
  ∃ r, devicesDocument fuel p = Some r.
Proof.
  induction fuel as [|fuel IH]; intros p Hlen; [lia|].
  simpl. destruct (readNextStartElement (xml p)) as [found x] eqn:Escan.
  destruct found; simpl; [|by eexists].
  destruct (readNextStartElement_found _ _ Escan) as [_ Hlt].
  destruct (String.eqb (name x) "devices").
  - destruct (devicesLoop_total fuel (set_xml x p)) as [p' ->];
      [simpl; lia|by eexists].
  - apply IH. simpl. pose proof (skipCurrentElement_pending x). lia.
Qed.

(** Every reply is parsed to the end. *)
Lemma parseCameras_total (s : DVRServer) (reply : QNetworkReply) :
  ∃ p, parseCameras s reply = Some p.
Proof.
  unfold parseCameras.
  destruct (devicesDocument_total (fuel_for (readAll reply))
              (mkParse (Xml.open (readAll reply)) ∅ s [])) as [[b p] ->].
  - unfold fuel_for. simpl. lia.
  - by eexists.
Qed.

Lemma updateCamerasReply_total (s : DVRServer) (reply : option QNetworkReply) :
  ∃ s' sigs, updateCamerasReply s reply = Some (s', sigs).
Proof.
  destruct reply as [r|]; simpl; [|by eexists _, _].
  destruct (errorString r); [by eexists _, _|].
  destruct (parseCameras_total s r) as [p ->].
  destruct (hasError (xml p)); [by eexists _, _|].
  destruct (reconcile _ p) as [s' sigs]. by eexists _, _.
Qed.

(** *** Replies that went through *)

(** Every device-list reply is handled to the end, and when it was
    reconciled the ids of the cameras of the server are the ids in
    [idSet]. *)
Lemma camera_ids_are_idSet (s : DVRServer)
    (reply : option QNetworkReply) :
  ∃ s' sigs,
    updateCamerasReply s reply = Some (s', sigs) ∧
    (reconciled s reply = true →
     cameraIds (m_cameras s') = observedIds s reply).
Proof.
  destruct (reconciled s reply) eqn:Hrec.
  - destruct (reconciled_inv s reply Hrec) as (r & p & -> & He & Hp & Herr & Hrun).
    destruct (reconcile _ p) as [s' sigs] eqn:Er.
    exists s', sigs. split; [done|]. intros _.
    unfold observedIds. rewrite Hp.
    destruct (parseCameras_extends s r p Hp) as [Hcov _].
    pose proof (covered_cameraIds p (bool_decide (m_cameras s = [])) Hcov Herr)
      as Hids.
    by rewrite Er in Hids.
  - destruct (updateCamerasReply_total s reply) as (s' & sigs & ->).
    by exists s', sigs.
Qed.

(** C2.  When a reply was reconciled, the same reply handled right
    after it is reconciled as well, emits no signal at all (no
    [cameraAdded], no [cameraRemoved]) and leaves the camera list as it
    is. *)
Theorem same_reply_again (s : DVRServer) (reply : option QNetworkReply) :
  ∃ s1 sigs1,
    updateCamerasReply s reply = Some (s1, sigs1) ∧
    (reconciled s reply = true →
     ∃ s2, updateCamerasReply s1 reply = Some (s2, []) ∧
           reconciled s1 reply = true ∧
           m_cameras s2 = m_cameras s1).
Proof.
  destruct (reconciled s reply) eqn:Hrec; cycle 1.
  { destruct (updateCamerasReply_total s reply) as (s' & sigs & ->).
    by exists s', sigs. }
  destruct (reconciled_inv s reply Hrec) as (r & p & -> & He & Hp & Herr & Hrun).
  pose proof (reconcile_cameras (bool_decide (m_cameras s = [])) p) as Hkept.
  pose proof (reconcile_loaded (bool_decide (m_cameras s = [])) p) as Hloaded.
  destruct (reconcile _ p) as [s1 sigs1] eqn:Er. simpl in Hkept, Hloaded.
  exists s1, sigs1. split; [done|]. intros _.
  destruct (parseCameras_extends s r p Hp) as [Hcov _].
  assert (Hin : ∀ id, id ∈ idSet p → mkCamera id ∈ m_cameras s1).
  { intros id Hid. rewrite Hkept. apply list_elem_of_filter.
    split; [done|by apply Hcov]. }
  unfold parseCameras in Hp.
  destruct (devicesDocument _ _) as [[b p0]|] eqn:Ed; [|done].
  assert (idSet p0 = idSet p ∧ xml p = if b then xml p0 else raiseError (xml p0))
    as [Hi0 Hx0] by (injection Hp as <-; by destruct b).
  destruct (devicesDocument_again _ _ _ _
              (mkParse (Xml.open (readAll r)) ∅ s1 []) Ed)
    as (q & Hq & Hxq & Hiq & Hcq & Hdq & Hsq); [done|done|by rewrite Hi0|].
  simpl in Hcq, Hdq, Hsq.
  set (p2 := if b then q else set_xml (raiseError (xml q)) q).
  assert (parseCameras s1 r = Some p2) as Hp2
    by (unfold parseCameras; by rewrite Hq).
  assert (xml p2 = xml p ∧ idSet p2 = idSet p ∧
          m_cameras (server p2) = m_cameras s1 ∧
          devicesLoaded (server p2) = true ∧ signals p2 = []) as
    (Hx2 & Hi2 & Hc2 & Hd2 & Hs2).
  { subst p2. destruct b; simpl; rewrite ?Hxq, ?Hiq, ?Hcq, ?Hdq, ?Hsq, ?Hx0;
      by repeat split. }
  assert (reconcile (bool_decide (m_cameras s1 = [])) p2
          = (set_cameras (m_cameras s1) (server p2), [])) as Hr2.
  { unfold reconcile. rewrite Hi2, Hc2, Hs2.
    rewrite removeAbsent_none.
    - simpl. rewrite Hd2. simpl.
      by destruct (bool_decide (m_cameras s1 = [])).
    - intros c Hc. rewrite Hkept in Hc.
      by apply list_elem_of_filter in Hc as [? _]. }
  exists (set_cameras (m_cameras s1) (server p2)).
  unfold updateCamerasReply, reconciled. rewrite He, Hp2, Hx2, Herr.
  by rewrite Hr2.
Qed.

(** C10.  [devicesReady] goes out once, and exactly when the reply was
    reconciled and either [devicesLoaded] was false or the camera list
    was empty before the reply and is not after it; [devicesLoaded] is
    false after construction and after a disconnect, and true after any
    reconciled reply. *)
Theorem devicesReady_rule (s : DVRServer) (reply : option QNetworkReply) :
  ∃ s' sigs,
    updateCamerasReply s reply = Some (s', sigs) ∧
    readyCount sigs =
      (if reconciled s reply &&
          (negb (devicesLoaded s) ||
           bool_decide (m_cameras s = []) &&
           negb (bool_decide (m_cameras s' = [])))
       then 1 else 0)%nat ∧
    devicesLoaded s' = reconciled s reply || devicesLoaded s ∧
    (∀ cfg, devicesLoaded (newServer cfg) = false) ∧
    devicesLoaded (disconnected s).1 = false.
Proof.
  assert (Hdis : devicesLoaded (disconnected s).1 = false).
  { unfold disconnected. by destruct (takeAll _ _). }
  destruct (reconciled s reply) eqn:Hrec.
  - destruct (reconciled_inv s reply Hrec) as (r & p & -> & He & Hp & Herr & ->).
    destruct (parseCameras_extends s r p Hp) as (_ & added & Hc & Hs & Hd).
    unfold reconcile.
    pose proof (readyCount_removed (idSet p) (server p) (m_cameras (server p)))
      as Hrem.
    destruct (removeAbsent _ _ _) as [kept sigs]. simpl in Hrem.
    cbn [devicesLoaded set_cameras]. rewrite Hd. cbn [andb orb].
    destruct (negb (devicesLoaded s) || _) eqn:Econd.
    + eexists _, _. split; [done|]. cbn [m_cameras set_devicesLoaded set_cameras].
      rewrite Econd, !readyCount_app, Hs, readyCount_added, Hrem.
      by repeat split.
    + eexists _, _. split; [done|]. cbn [m_cameras set_cameras].
      rewrite Econd, !readyCount_app, Hs, readyCount_added, Hrem.
      apply orb_false_iff in Econd as [Hl _].
      apply negb_false_iff in Hl.
      cbn [devicesLoaded set_cameras]. rewrite Hd, Hl. by repeat split.
  - unfold reconciled, updateCamerasReply in *.
    destruct reply as [r|]; [|by eexists _, _].
    destruct (errorString r); [by eexists _, _|].
    destruct (parseCameras_total s r) as [p Hp]. rewrite Hp in *.
    apply negb_false_iff in Hrec. rewrite Hrec.
    destruct (parseCameras_extends s r p Hp) as (_ & added & _ & Hs & Hd).
    eexists _, _. split; [done|].
    rewrite Hs, readyCount_added, Hd. by repeat split.
Qed.

End ReconcileFacts.

(** ** The reconciler on its instances *)

Lemma parseXML_entry_forward (c : DVRCamera) (x : Xml.Reader) :
  (length (Xml.pending (parseXML_entry c x).2) ≤ length (Xml.pending x))%nat.
Proof. apply XmlFacts.skipCurrentElement_pending. Qed.

Lemma same_reply_again_witness :
  ∃ s1 sigs1 s2,
    updateCamerasReply toUInt_decimal parseXML_entry
      (newServer ∅) (Some (devicesReply ["1"; "2"])) = Some (s1, sigs1) ∧
    updateCamerasReply toUInt_decimal parseXML_entry
      s1 (Some (devicesReply ["1"; "2"])) = Some (s2, []) ∧
    m_cameras s2 = m_cameras s1.
Proof.
  destruct (same_reply_again toUInt_decimal parseXML_entry
              parseXML_entry_forward (newServer ∅)
              (Some (devicesReply ["1"; "2"]))) as (s1 & sigs1 & Hrun & Hagain).
  destruct Hagain as (s2 & Hrun2 & _ & Hsame); [reflexivity|].
  exists s1, sigs1, s2. split; [exact Hrun|]. split; [exact Hrun2|exact Hsame].
Defined.

Lemma devicesReady_rule_witness :
  ∃ s' sigs,
    updateCamerasReply toUInt_decimal parseXML_entry
      (newServer ∅) (Some (devicesReply ["1"; "2"])) = Some (s', sigs) ∧
    readyCount sigs = 1%nat ∧ devicesLoaded s' = true.
Proof.
  destruct (devicesReady_rule toUInt_decimal parseXML_entry
              parseXML_entry_forward (newServer ∅)
              (Some (devicesReply ["1"; "2"])))
    as (s' & sigs & Hrun & Hcount & Hloaded & _).
  exists s', sigs. split; [exact Hrun|]. split.
  - rewrite Hcount. reflexivity.
  - rewrite Hloaded. reflexivity.
Defined.

(** C4, as stated, fails: the entry with id "x" is not passed over alone.
    The entry with id 2 after it is never taken in, the reply is given
    up as a parse error, and no [devicesReady] goes out; only the entry
    before it (id 3, in the second reply) has been added. *)
Lemma sibling_after_bad_id_is_lost :
  toUInt_decimal "x" = None ∧ toUInt_decimal "2" = Some 2%N ∧
  summary (updateCamerasReply toUInt_decimal parseXML_entry
             (newServer ∅) (Some (devicesReply ["x"; "2"])))
  = Some ([], false, []) ∧
  summary (updateCamerasReply toUInt_decimal parseXML_entry
             (newServer ∅) (Some (devicesReply ["3"; "x"; "2"])))
  = Some ([mkCamera 3], false, [cameraAdded (mkCamera 3) true]).
Proof. repeat split; vm_compute; reflexivity. Qed.

(** C8: a reply with the ids 1 and 2, then a reply with the id 2 alone.
    The second reply removes camera 1 with one [cameraRemoved], adds
    nothing for camera 2, and camera 1 is still online while
    [cameraRemoved] is delivered: lines 227-231 do not call
    [setOnline(false)], which [disconnected] does. *)
Theorem removed_camera_still_online :
  twoReplies toUInt_decimal parseXML_entry (newServer ∅)
             (devicesReply ["1"; "2"]) (devicesReply ["2"])
  = Some ([cameraAdded (mkCamera 1) true; cameraAdded (mkCamera 2) true;
           devicesReady],
          [mkCamera 2],
          [cameraRemoved (mkCamera 1) true; camera_removed (mkCamera 1)]).
Proof. vm_compute. reflexivity. Qed.

(** * More of the handlers *)

(** ** The reader hands out tokens of the stream only *)

Module XmlMore.
Import Xml.

Lemma scanStartElement_tokens (ts : list Token) :
  (∀ t, t ∈ pending (scanStartElement ts).2 → t ∈ ts) ∧
  ((scanStartElement ts).1 = true →
   ∃ n a, token (scanStartElement ts).2 = Some (StartElement n a) ∧
          StartElement n a ∈ ts).
Proof.
  induction ts as [|t ts [IH1 IH2]]; simpl.
  { split; [done|discriminate]. }
  destruct t; simpl;
    try (split; [intros t' Ht'; right; by apply IH1|];
         intros H; destruct (IH2 H) as (n & a & ? & ?);
         exists n, a; split; [done|by right]).
  - split; [intros t' Ht'; by right|]. intros _.
    eexists _, _. split; [done|by left].
  - split; [intros t' Ht'; by right|discriminate].
Qed.

Lemma skipDepth_tokens (ts : list Token) :
  ∀ depth cur t, t ∈ pending (skipDepth ts depth cur) → t ∈ ts.
Proof.
  induction ts as [|t0 ts IH]; intros [|d] cur t; simpl; try done.
  destruct t0; simpl; intros H; right; by eapply IH.
Qed.

Lemma skipCurrentElement_tokens (x : Reader) t :
  t ∈ pending (skipCurrentElement x) → t ∈ pending x.
Proof.
  unfold skipCurrentElement. destruct (error x); simpl; try done.
  apply skipDepth_tokens.
Qed.

End XmlMore.

(** ** What a parse leaves behind *)

Section ParseMore.
Import Xml XmlFacts.

Variable toUInt : QString → option N.
Variable parseXML : DVRCamera → Xml.Reader → bool * Xml.Reader.

Local Abbreviation devicesTurn := (devicesTurn toUInt parseXML).
Local Abbreviation devicesLoop := (devicesLoop toUInt parseXML).
Local Abbreviation devicesDocument := (devicesDocument toUInt parseXML).
Local Abbreviation parseCameras := (parseCameras toUInt parseXML).
Local Abbreviation updateCamerasReply := (updateCamerasReply toUInt parseXML).
Local Abbreviation reconciled := (reconciled toUInt parseXML).
Local Abbreviation observedIds := (observedIds toUInt parseXML).

Lemma marked_data (s : DVRServer) (id id' : Z) :
  cameraData (marked s id) !! id' =
    if decide (id' = id) then Some true else cameraData s !! id'.
Proof.
  unfold marked, getCamera, setOnline. simpl.
  case_decide as Hid.
  - subst. by rewrite lookup_insert_eq.
  - rewrite lookup_insert_ne by done.
    destruct (cameraData s !! id) eqn:E; [done|]. simpl.
    by rewrite lookup_insert_ne.
Qed.

Lemma marked_config (s : DVRServer) (id : Z) : sameConfig s (marked s id).
Proof.
  unfold sameConfig, marked, getCamera, setOnline. simpl.
  by destruct (cameraData s !! id).
Qed.

Lemma sameConfig_trans (s1 s2 s3 : DVRServer) :
  sameConfig s1 s2 → sameConfig s2 s3 → sameConfig s1 s3.
Proof.
  unfold sameConfig. intros (?&?&?&?&?) (?&?&?&?&?).
  repeat split; congruence.
Qed.

Lemma parsedFrom_start (s : DVRServer) (x : Reader) :
  parsedFrom s (mkParse x ∅ s []).
Proof.
  exists []. simpl. rewrite app_nil_r.
  split; [done|]. split; [done|]. split; [apply NoDup_nil_2|].
  split; [intros c Hc; by apply elem_of_nil in Hc|].
  split; [intros id Hid; by apply elem_of_empty in Hid|].
  by repeat split.
Qed.

Lemma parsedFrom_set_xml (s : DVRServer) (p : Parse) (x : Reader) :
  parsedFrom s p → parsedFrom s (set_xml x p).
Proof. done. Qed.

Lemma devicesTurn_parsedFrom (s : DVRServer) (p : Parse) :
  parsedFrom s p → parsedFrom s (result (devicesTurn p)).
Proof.
  intros Hp.
  destruct (devicesTurn_cases toUInt parseXML p)
    as [(x & -> & _)|(x & u & ok & x' & H)].
  { by apply parsedFrom_set_xml. }
  cbv zeta in H. destruct H as (_ & _ & ->).
  destruct Hp as (added & Hc & Hs & Hnd & Hnew & Hon & Hoff & Hcfg).
  set (id := int_of_uint u) in *.
  destruct (marked_fields (server p) id) as (Hmc & _ & _).
  assert (Hon' : ∀ id', id' ∈ {[id]} ∪ idSet p →
                        cameraData (marked (server p) id) !! id' = Some true).
  { intros id' Hin. rewrite marked_data. case_decide; [done|].
    apply Hon. apply elem_of_union in Hin as [Hin|Hin]; [|done].
    by apply elem_of_singleton in Hin. }
  assert (Hoff' : ∀ id', id' ∉ {[id]} ∪ idSet p →
                         cameraData (marked (server p) id) !! id'
                         = cameraData s !! id').
  { intros id' Hin. rewrite marked_data.
    rewrite decide_False.
    - apply Hoff. intros ?. apply Hin, elem_of_union. by right.
    - intros ->. apply Hin, elem_of_union. left. by apply elem_of_singleton. }
  assert (Hcfg' : sameConfig s (marked (server p) id)).
  { eapply sameConfig_trans; [exact Hcfg|apply marked_config]. }
  assert (Hnew' : ∀ c, c ∈ added →
                       (c ∉ m_cameras s) ∧ (uniqueId c ∈ {[id]} ∪ idSet p)).
  { intros c Hin. destruct (Hnew c Hin) as [? ?]. split; [done|].
    apply elem_of_union. by right. }
  assert (Hkeep : ∀ x0, parsedFrom s
            (mkParse x0 ({[id]} ∪ idSet p) (marked (server p) id) (signals p))).
  { intros x0. exists added. cbn [server signals idSet]. rewrite Hmc.
    split; [done|]. split; [done|]. split; [done|]. split; [exact Hnew'|].
    split; [exact Hon'|]. split; [exact Hoff'|exact Hcfg']. }
  destruct ok; [destruct (contains _ _) eqn:Ec|]; [apply Hkeep| |apply Hkeep].
  apply bool_decide_eq_false in Ec. rewrite Hmc, Hc in Ec.
  exists (added ++ [mkCamera id]).
  cbn [server signals idSet m_cameras set_cameras].
  rewrite Hmc, Hc, Hs, map_app, app_assoc.
  split; [done|]. split; [done|]. split.
  { apply NoDup_app. split; [done|]. split; [|apply NoDup_singleton].
    intros c Hin Hc'. apply list_elem_of_singleton in Hc' as ->.
    apply Ec, elem_of_app. by right. }
  split.
  { intros c Hin. apply elem_of_app in Hin as [Hin|Hin]; [by apply Hnew'|].
    apply list_elem_of_singleton in Hin as ->. split.
    - intros Hin. apply Ec, elem_of_app. by left.
    - apply elem_of_union. left. by apply elem_of_singleton. }
  split; [exact Hon'|]. split; [exact Hoff'|exact Hcfg'].
Qed.

Lemma devicesLoop_parsedFrom (s : DVRServer) (fuel : nat) :
  ∀ p p', devicesLoop fuel p = Some p' → parsedFrom s p → parsedFrom s p'.
Proof.
  induction fuel as [|fuel IH]; intros p p' H Hp; [done|].
  simpl in H. pose proof (devicesTurn_parsedFrom s p Hp) as Ht.
  destruct (devicesTurn p) as [p1|p1]; simpl in Ht.
  - by injection H as <-.
  - by eapply IH.
Qed.

Lemma devicesDocument_parsedFrom (s : DVRServer) (fuel : nat) :
  ∀ p b p', devicesDocument fuel p = Some (b, p') →
            parsedFrom s p → parsedFrom s p'.
Proof.
  induction fuel as [|fuel IH]; intros p b p' H Hp; [done|].
  simpl in H. destruct (readNextStartElement (xml p)) as [found x].
  destruct found; simpl in H.
  - destruct (String.eqb (name x) "devices").
    + destruct (devicesLoop fuel (set_xml x p)) as [p1|] eqn:El; [|done].
      injection H as <- <-. by eapply devicesLoop_parsedFrom.
    + by eapply IH.
  - by injection H as <- <-.
Qed.

Lemma parseCameras_parsedFrom (s : DVRServer) (reply : QNetworkReply) p :
  parseCameras s reply = Some p → parsedFrom s p.
Proof.
  unfold parseCameras.
  destruct (devicesDocument _ _) as [[b p1]|] eqn:Ed; [|done].
  intros [= <-].
  pose proof (devicesDocument_parsedFrom s _ _ _ _ Ed (parsedFrom_start s _))
    as Hp.
  by destruct b.
Qed.

(** *** A reply without a [devices] element *)

Lemma devicesDocument_none (fuel : nat) :
  ∀ p, (length (pending (xml p)) < fuel)%nat →
       noElement "devices" (pending (xml p)) →
       ∃ x, devicesDocument fuel p = Some (false, set_xml x p).
Proof.
  induction fuel as [|fuel IH]; intros p Hlen Hno; [lia|].
  simpl. destruct (readNextStartElement (xml p)) as [found x] eqn:Escan.
  destruct found; simpl; [|by eexists].
  destruct (readNextStartElement_found _ _ Escan) as [_ Hlt].
  unfold readNextStartElement in Escan.
  destruct (error (xml p)); try discriminate.
  destruct (XmlMore.scanStartElement_tokens (pending (xml p))) as [Hsub Hfound].
  rewrite Escan in Hsub, Hfound. simpl in Hsub, Hfound.
  destruct (Hfound eq_refl) as (n & a & Htok & Hin).
  assert (String.eqb (name x) "devices" = false) as ->.
  { unfold name. rewrite Htok. apply String.eqb_neq. intros ->.
    by apply (Hno a). }
  destruct (IH (set_xml (skipCurrentElement x) p)) as [x' ->].
  - simpl. pose proof (skipCurrentElement_pending x). lia.
  - intros a' Hin'. simpl in Hin'.
    apply XmlMore.skipCurrentElement_tokens, Hsub in Hin'. by apply (Hno a').
  - by exists x'.
Qed.

(** X4.  A reply that holds no [devices] start element, an empty reply
    included, changes nothing and emits nothing. *)
Theorem reply_without_devices (s : DVRServer) (data : list Xml.Token) :
  noElement "devices" data →
  updateCamerasReply s (Some (mkReply None data)) = Some (s, []).
Proof.
  intros Hno. unfold updateCamerasReply, parseCameras.
  cbn [errorString readAll].
  destruct (devicesDocument_none (fuel_for data)
              (mkParse (Xml.open data) ∅ s [])) as [x ->].
  - unfold fuel_for. simpl. lia.
  - exact Hno.
  - done.
Qed.

(** *** The outcome of a reconciled reply *)

Lemma filter_all {A} (P : A → Prop) `{∀ x, Decision (P x)} (l : list A) :
  (∀ x, x ∈ l → P x) → filter P l = l.
Proof.
  induction l as [|a l IH]; intros Hall; [done|].
  rewrite filter_cons, decide_True by (apply Hall; by left).
  rewrite IH; [done|]. intros x Hx. apply Hall. by right.
Qed.

Lemma filter_none {A} (P : A → Prop) `{∀ x, Decision (P x)} (l : list A) :
  (∀ x, x ∈ l → ¬ P x) → filter P l = [].
Proof.
  induction l as [|a l IH]; intros Hall; [done|].
  rewrite filter_cons, decide_False by (apply Hall; by left).
  apply IH. intros x Hx. apply Hall. by right.
Qed.

Lemma camera_eta (c : DVRCamera) : mkCamera (uniqueId c) = c.
Proof. by destruct c. Qed.

(** X3.  A reconciled reply leaves the cameras of before that it lists, in
    their order, followed by the cameras it adds, which are new, distinct
    and listed.  Its signals are the [cameraAdded] of the added cameras,
    then [cameraRemoved] and [removed] for each camera of before that it
    does not list, with the online flag the camera had, then
    [devicesReady] if it is due. *)
Theorem reconciliation_result (s : DVRServer) (reply : option QNetworkReply) :
  reconciled s reply = true →
  ∃ added s' sigs,
    updateCamerasReply s reply = Some (s', sigs) ∧
    m_cameras s' =
      filter (λ c, uniqueId c ∈ observedIds s reply) (m_cameras s) ++ added ∧
    NoDup added ∧
    (∀ c, c ∈ added →
          (c ∉ m_cameras s) ∧ (uniqueId c ∈ observedIds s reply)) ∧
    sigs =
      map (λ c, cameraAdded c true) added ++
      concat (map (λ c, [cameraRemoved c (isOnline s c); camera_removed c])
                  (filter (λ c, uniqueId c ∉ observedIds s reply)
                          (m_cameras s))) ++
      (if negb (devicesLoaded s) ||
          bool_decide (m_cameras s = []) && negb (bool_decide (m_cameras s' = []))
       then [devicesReady] else []).
Proof.
  intros Hrec.
  destruct (reconciled_inv toUInt parseXML s reply Hrec)
    as (r & p & -> & He & Hp & Herr & Hrun).
  destruct (parseCameras_parsedFrom s r p Hp)
    as (added & Hc & Hs & Hnd & Hnew & Hon & Hoff & Hcfg).
  assert (observedIds s (Some r) = idSet p) as Hids
    by (unfold observedIds; by rewrite Hp).
  rewrite Hids.
  assert (Hkept : (removeAbsent (idSet p) (server p) (m_cameras (server p))).1
                  = filter (λ c, uniqueId c ∈ idSet p) (m_cameras s) ++ added).
  { rewrite removeAbsent_kept, Hc, filter_app.
    rewrite (filter_all _ added); [done|]. intros c Hin. by apply Hnew. }
  assert (Hrem : (removeAbsent (idSet p) (server p) (m_cameras (server p))).2
                 = concat (map (λ c, [cameraRemoved c (isOnline s c);
                                      camera_removed c])
                               (filter (λ c, uniqueId c ∉ idSet p)
                                       (m_cameras s)))).
  { rewrite removeAbsent_signals, Hc, filter_app.
    rewrite (filter_none _ added), app_nil_r.
    - f_equal. apply map_ext_in. intros c Hin.
      apply list_elem_of_In, list_elem_of_filter in Hin as [Hid _].
      unfold isOnline. by rewrite (Hoff _ Hid).
    - intros c Hin Hid. apply Hid. by apply Hnew. }
  unfold reconcile in Hrun.
  destruct (removeAbsent _ _ _) as [kept removals]. simpl in Hkept, Hrem.
  cbn [devicesLoaded set_cameras] in Hrun.
  destruct Hcfg as (Hd & _). rewrite Hd in Hrun.
  exists added.
  destruct (negb (devicesLoaded s) || _) eqn:Econd in Hrun.
  - eexists _, _. split; [exact Hrun|].
    cbn [m_cameras set_devicesLoaded set_cameras]. rewrite Econd.
    split; [done|]. split; [done|]. split; [done|].
    by rewrite Hs, Hrem, <- !app_assoc.
  - eexists _, _. split; [exact Hrun|].
    cbn [m_cameras set_cameras]. rewrite Econd.
    split; [done|]. split; [done|]. split; [done|].
    by rewrite Hs, Hrem, app_nil_r.
Qed.

(** *** How a reply can end *)

Hypothesis parseXML_forward :
  ∀ c x, (length (pending (parseXML c x).2) ≤ length (pending x))%nat.

Lemma updateCamerasReply_outcome (s : DVRServer) (reply : option QNetworkReply) :
  ∃ s' sigs,
    updateCamerasReply s reply = Some (s', sigs) ∧
    ((reconciled s reply = false ∧ s' = s ∧ sigs = []) ∨
     (∃ p, parsedFrom s p ∧ reconciled s reply = false ∧
           s' = server p ∧ sigs = signals p) ∨
     (∃ p, parsedFrom s p ∧ covered p ∧ reconciled s reply = true ∧
           observedIds s reply = idSet p ∧
           (s', sigs) = reconcile
                          (bool_decide (m_cameras s = [])) p)).
Proof.
  destruct reply as [r|]; [|eexists _, _; split; [done|by left]].
  unfold updateCamerasReply, reconciled, observedIds.
  destruct (errorString r); [eexists _, _; split; [done|by left]|].
  destruct (parseCameras_total toUInt parseXML parseXML_forward s r) as [p Hp].
  rewrite Hp.
  pose proof (parseCameras_parsedFrom s r p Hp) as Hfrom.
  destruct (parseCameras_extends toUInt parseXML s r p Hp) as [Hcov _].
  destruct (hasError (xml p)) eqn:Herr.
  - eexists _, _. split; [done|]. right. left. by exists p.
  - destruct (reconcile _ p) as [s' sigs] eqn:Er.
    exists s', sigs. split; [done|]. right. right. by exists p.
Qed.

(** The cameras after a parse that started on [s]: distinct when those of
    [s] were, online when those of [s] were. *)
Lemma parsedFrom_distinct (s : DVRServer) (p : Parse) :
  parsedFrom s p → distinctCameras s → NoDup (m_cameras (server p)).
Proof.
  intros (added & Hc & _ & Hnd & Hnew & _) Hs. rewrite Hc.
  apply NoDup_app. split; [done|]. split; [|done].
  intros c Hin Hadd. by destruct (Hnew c Hadd).
Qed.

Lemma parsedFrom_online (s : DVRServer) (p : Parse) :
  parsedFrom s p → camerasOnline s →
  ∀ c, c ∈ m_cameras (server p) → isOnline (server p) c = true.
Proof.
  intros (added & Hc & _ & _ & Hnew & Hon & Hoff & _) Hs c Hin.
  unfold isOnline.
  destruct (decide (uniqueId c ∈ idSet p)) as [Hid|Hid].
  - by rewrite (Hon _ Hid).
  - rewrite (Hoff _ Hid). rewrite Hc in Hin.
    apply elem_of_app in Hin as [Hin|Hin]; [by apply Hs|].
    by destruct (Hnew c Hin).
Qed.

Lemma reconcile_data (wasEmpty : bool) (p : Parse) :
  cameraData (reconcile wasEmpty p).1 = cameraData (server p).
Proof.
  unfold reconcile. destruct (removeAbsent _ _ _) as [kept sigs].
  by destruct (negb _ || _).
Qed.

(** X1.  Whatever the reply, no camera is in the set twice afterwards; the
    other slots keep that as well. *)
Theorem cameras_stay_distinct : keptByHandlers toUInt parseXML distinctCameras.
Proof.
  unfold keptByHandlers, distinctCameras.
  split; [intros cfg; apply NoDup_nil_2|].
  split; [intros s Hs; unfold updateCameras;
          destruct (api_isOnline s); simpl; [by destruct (m_refreshTimer s)|done]|].
  split.
  { intros s _. destruct (takeAll_fields (m_cameras s) s) as (Hc & _).
    unfold disconnected. destruct (takeAll _ _) as [s1 sigs]. simpl in *.
    rewrite Hc. apply NoDup_nil_2. }
  split.
  { intros s reply Hs. destruct reply as [r|]; simpl; [|by eexists _, _].
    destruct (statsMessage_total r) as [m ->].
    destruct (negb _); by eexists _, _. }
  intros s reply Hs.
  destruct (updateCamerasReply_outcome s reply) as (s' & sigs & Hrun & Hout).
  exists s', sigs. split; [done|].
  destruct Hout
    as [(_ & -> & _)|[(p & Hp & _ & -> & _)|(p & Hp & _ & _ & _ & Hr)]];
    [done|by apply (parsedFrom_distinct s)|].
  pose proof (reconcile_cameras (bool_decide (m_cameras s = [])) p)
    as Hk.
  rewrite <- Hr in Hk. simpl in Hk. rewrite Hk.
  apply NoDup_filter. by apply (parsedFrom_distinct s).
Qed.

(** X2.  Whatever the reply, every camera of the set is online afterwards;
    the other slots keep that as well. *)
Theorem cameras_stay_online : keptByHandlers toUInt parseXML camerasOnline.
Proof.
  unfold keptByHandlers, camerasOnline.
  split; [intros cfg c Hc; by apply elem_of_nil in Hc|].
  split.
  { intros s Hs c. unfold updateCameras, isOnline.
    destruct (api_isOnline s); simpl; [destruct (m_refreshTimer s)|]; apply Hs. }
  split.
  { intros s _ c. destruct (takeAll_fields (m_cameras s) s) as (Hc & _).
    unfold disconnected. destruct (takeAll _ _) as [s1 sigs]. simpl in *.
    rewrite Hc. intros Hin. by apply elem_of_nil in Hin. }
  split.
  { intros s reply Hs. destruct reply as [r|]; simpl; [|by eexists _, _].
    destruct (statsMessage_total r) as [m ->].
    destruct (negb _); eexists _, _; (split; [done|]); apply Hs. }
  intros s reply Hs.
  destruct (updateCamerasReply_outcome s reply) as (s' & sigs & Hrun & Hout).
  exists s', sigs. split; [done|].
  destruct Hout
    as [(_ & -> & _)|[(p & Hp & _ & -> & _)|(p & Hp & _ & _ & _ & Hr)]];
    [done|by apply (parsedFrom_online s)|].
  pose proof (reconcile_cameras (bool_decide (m_cameras s = [])) p)
    as Hk.
  pose proof (reconcile_data (bool_decide (m_cameras s = [])) p) as Hd.
  rewrite <- Hr in Hk, Hd. simpl in Hk, Hd.
  intros c Hin. rewrite Hk in Hin. apply list_elem_of_filter in Hin as [_ Hin].
  pose proof (parsedFrom_online s p Hp Hs c Hin) as Hon.
  unfold isOnline in *. by rewrite Hd.
Qed.

Lemma reconcile_config (wasEmpty : bool) (p : Parse) :
  m_statusAlertMessage (reconcile wasEmpty p).1
    = m_statusAlertMessage (server p) ∧
  m_refreshTimer (reconcile wasEmpty p).1 = m_refreshTimer (server p) ∧
  settings (reconcile wasEmpty p).1 = settings (server p) ∧
  api_isOnline (reconcile wasEmpty p).1 = api_isOnline (server p).
Proof.
  unfold reconcile. destruct (removeAbsent _ _ _) as [kept sigs].
  by destruct (negb _ || _).
Qed.

(** X5.  Each reply handler keeps to its own part of the server: a
    device-list reply never touches the alert message, the timer, the
    settings or the session flag, and a stats reply touches nothing but
    the alert message. *)
Theorem reply_handlers_keep_apart (s : DVRServer)
    (reply : option QNetworkReply) :
  (∃ s' sigs,
     updateCamerasReply s reply = Some (s', sigs) ∧
     m_statusAlertMessage s' = m_statusAlertMessage s ∧
     m_refreshTimer s' = m_refreshTimer s ∧
     settings s' = settings s ∧
     api_isOnline s' = api_isOnline s) ∧
  (∃ s' sigs,
     updateStatsReply s reply = Some (s', sigs) ∧
     m_cameras s' = m_cameras s ∧
     devicesLoaded s' = devicesLoaded s ∧
     cameraData s' = cameraData s ∧
     m_refreshTimer s' = m_refreshTimer s ∧
     settings s' = settings s ∧
     api_isOnline s' = api_isOnline s).
Proof.
  split.
  - destruct (updateCamerasReply_outcome s reply) as (s' & sigs & Hrun & Hout).
    exists s', sigs. split; [done|].
    destruct Hout
      as [(_ & -> & _)|[(p & Hp & _ & -> & _)|(p & Hp & _ & _ & _ & Hr)]].
    + done.
    + by destruct Hp as (_ & _ & _ & _ & _ & _ & _ & _ & ? & ? & ? & ?).
    + destruct Hp as (_ & _ & _ & _ & _ & _ & _ & _ & Hm & Ht & Hst & Ha).
      destruct (reconcile_config (bool_decide (m_cameras s = [])) p)
        as (Hm' & Ht' & Hst' & Ha').
      rewrite <- Hr in Hm', Ht', Hst', Ha'. simpl in Hm', Ht', Hst', Ha'.
      repeat split; congruence.
  - destruct reply as [r|]; simpl; [|by eexists _, _].
    destruct (statsMessage_total r) as [m ->].
    destruct (negb _); by eexists _, _.
Qed.

End ParseMore.

(** ** More of the stats reply *)

Section StatsMore.
Import Xml XmlFacts.

Lemma statsDocument_none (fuel : nat) :
  ∀ x m h, (length (pending x) < fuel)%nat →
           noElement "stats" (pending x) →
           statsDocument fuel x m h = Some (m, h).
Proof.
  induction fuel as [|fuel IH]; intros x m h Hlen Hno; [lia|].
  simpl. destruct (readNextStartElement x) as [found x1] eqn:Escan.
  destruct found; simpl; [|done].
  destruct (readNextStartElement_found _ _ Escan) as [_ Hlt].
  unfold readNextStartElement in Escan.
  destruct (error x); try discriminate.
  destruct (XmlMore.scanStartElement_tokens (pending x)) as [Hsub Hfound].
  rewrite Escan in Hsub, Hfound. simpl in Hsub, Hfound.
  destruct (Hfound eq_refl) as (n & a & Htok & Hin).
  assert (String.eqb (name x1) "stats" = false) as ->.
  { unfold name. rewrite Htok. apply String.eqb_neq. intros ->.
    by apply (Hno a). }
  apply IH; [lia|]. intros a' Hin'. apply Hsub in Hin'. by apply (Hno a').
Qed.

(** X6.  A reply without network error that holds no [stats] start element,
    an empty reply included, stands for the invalid-response message. *)
Theorem reply_without_stats (data : list Token) :
  noElement "stats" data →
  statsMessage (mkReply None data)
  = Some "Status request error: invalid server response".
Proof.
  intros Hno. unfold statsMessage. cbn [errorString readAll].
  rewrite statsDocument_none; [done| |done].
  unfold fuel_for. simpl. lia.
Qed.

Lemma fold_childEffect_quiet (cs : list (QString * QString)) :
  ∀ m, (∀ c, c ∈ cs → quiet c) →
       fold_left childEffect cs (m, true) = (m, true).
Proof.
  induction cs as [|[n t] cs IH]; intros m Hq; [done|].
  cbn [fold_left].
  assert (childEffect (m, true) (n, t) = (m, true)) as ->.
  { destruct (Hq (n, t)) as [Hm Hb]; [by left|]. simpl in Hm, Hb.
    unfold childEffect. cbn [fst snd].
    destruct (String.eqb_spec n "message") as [Hn|_].
    - by rewrite (Hm Hn).
    - destruct (String.eqb_spec n "bc-server-running") as [Hn|_]; [|done].
      destruct (String.eqb_spec (QStr.trimmed t) "down") as [Hd|_]; [|done].
      by destruct (Hb Hn). }
  apply IH. intros c Hc. apply Hq. by right.
Qed.

(** Among plain text children without a child named [stats]: the last
    [message] child with a text gives the message, when no
    [bc-server-running] that is "down" comes after it. *)
Lemma last_message_plain (pre post : list (QString * QString)) (t : QString) :
  t ≠ "" →
  (∀ c, c ∈ pre ++ post → c.1 ≠ "stats") →
  (∀ c, c ∈ post → quiet c) →
  statsMessage (statsReply (pre ++ ("message", t) :: post)) = Some t.
Proof.
  intros Ht Hn Hq. rewrite statsMessage_children.
  - rewrite fold_left_app. cbn [fold_left].
    rewrite childEffect_message.
    assert (QStr.isEmpty t = false) as -> by by destruct t.
    by rewrite fold_childEffect_quiet.
  - intros c Hc. apply elem_of_app in Hc as [Hc|Hc].
    + apply Hn, elem_of_app. by left.
    + apply elem_of_cons in Hc as [->|Hc]; [done|].
      apply Hn, elem_of_app. by right.
Qed.

(** X8.  Of two stats replies in a row that stand for the same message, the
    second changes nothing and emits nothing. *)
Theorem same_message_again (s : DVRServer) (r1 r2 : QNetworkReply) :
  statsMessage r1 = statsMessage r2 →
  ∃ s1 sigs,
    updateStatsReply s (Some r1) = Some (s1, sigs) ∧
    updateStatsReply s1 (Some r2) = Some (s1, []).
Proof.
  intros Heq.
  destruct (updateStatsReply_total s (Some r1)) as [[s1 sigs] Hrun].
  exists s1, sigs. split; [done|].
  by eapply updateStatsReply_repeated.
Qed.

End StatsMore.

Lemma reply_without_stats_witness :
  statsMessage (mkReply None (document "status" (element "message" "OK")))
  = Some "Status request error: invalid server response".
Proof.
  apply reply_without_stats. intros attrs Hin.
  apply list_elem_of_In in Hin. simpl in Hin.
  repeat (destruct Hin as [Hin|Hin]; [discriminate Hin|]). exact Hin.
Defined.

Lemma same_message_again_witness :
  ∃ s1 sigs,
    updateStatsReply (newServer ∅)
      (Some (statsReply [("message", "disk full")])) = Some (s1, sigs) ∧
    updateStatsReply s1
      (Some (statsReply [("message", ""); ("message", "disk full")]))
    = Some (s1, []).
Proof.
  apply (same_message_again (newServer ∅)
           (statsReply [("message", "disk full")])
           (statsReply [("message", ""); ("message", "disk full")])).
  reflexivity.
Defined.

(** ** The device-list reply on its instances, once more *)

Lemma twoCameras_distinct : distinctCameras twoCameras.
Proof.
  unfold distinctCameras. simpl.
  apply NoDup_cons. split.
  - intros Hin. apply list_elem_of_singleton in Hin. discriminate Hin.
  - apply NoDup_singleton.
Qed.

Lemma twoCameras_online : camerasOnline twoCameras.
Proof.
  intros c Hc. apply list_elem_of_In in Hc. simpl in Hc.
  destruct Hc as [<-|[<-|[]]]; reflexivity.
Qed.

Lemma cameras_stay_distinct_witness :
  ∃ s' sigs,
    updateCamerasReply toUInt_decimal parseXML_entry twoCameras
      (Some (devicesReply ["2"; "3"; "2"])) = Some (s', sigs) ∧
    distinctCameras s'.
Proof.
  destruct (cameras_stay_distinct toUInt_decimal parseXML_entry
              parseXML_entry_forward) as (_ & _ & _ & _ & Hreply).
  apply Hreply. exact twoCameras_distinct.
Defined.

Lemma cameras_stay_online_witness :
  ∃ s' sigs,
    updateCamerasReply toUInt_decimal parseXML_entry twoCameras
      (Some (devicesReply ["2"; "x"])) = Some (s', sigs) ∧
    camerasOnline s'.
Proof.
  destruct (cameras_stay_online toUInt_decimal parseXML_entry
              parseXML_entry_forward) as (_ & _ & _ & _ & Hreply).
  apply Hreply. exact twoCameras_online.
Defined.

Lemma reconciliation_result_witness :
  ∃ added s' sigs,
    updateCamerasReply toUInt_decimal parseXML_entry twoCameras
      (Some (devicesReply ["3"; "2"])) = Some (s', sigs) ∧
    m_cameras s' = [mkCamera 2] ++ added ∧
    sigs = map (λ c, cameraAdded c true) added ++
           [cameraRemoved (mkCamera 1) true; camera_removed (mkCamera 1)].
Proof.
  destruct (reconciliation_result toUInt_decimal parseXML_entry twoCameras
              (Some (devicesReply ["3"; "2"])))
    as (added & s' & sigs & Hrun & Hcams & _ & _ & Hsigs); [reflexivity|].
  exists added, s', sigs. split; [exact Hrun|]. split; [exact Hcams|].
  rewrite Hsigs. f_equal.
Defined.

Lemma reply_without_devices_witness :
  updateCamerasReply toUInt_decimal parseXML_entry twoCameras
    (Some (mkReply None (document "error" (element "device" "1"))))
  = Some (twoCameras, []).
Proof.
  apply reply_without_devices. intros attrs Hin.
  apply list_elem_of_In in Hin. simpl in Hin.
  repeat (destruct Hin as [Hin|Hin]; [discriminate Hin|]). exact Hin.
Defined.

Lemma reply_handlers_keep_apart_witness :
  ∃ s' sigs,
    updateCamerasReply toUInt_decimal parseXML_entry twoCameras
      (Some (devicesReply ["3"])) = Some (s', sigs) ∧
    m_statusAlertMessage s' = "" ∧ m_refreshTimer s' = Some 60000.
Proof.
  destruct (reply_handlers_keep_apart toUInt_decimal parseXML_entry
              parseXML_entry_forward twoCameras (Some (devicesReply ["3"])))
    as [(s' & sigs & Hrun & Hm & Ht & _) _].
  exists s', sigs. split; [exact Hrun|]. split; [exact Hm|exact Ht].
Defined.

(** ** Device ids *)

(** X9.  The cast of line 184 keeps ids below 2^31 as they are, makes the
    others negative, and never sends two unsigned ids to the same
    camera id. *)
Theorem device_ids_do_not_collide (u v : N) :
  (u < 2 ^ 32)%N → (v < 2 ^ 32)%N →
  (- 2 ^ 31 ≤ int_of_uint u < 2 ^ 31) ∧
  ((u < 2 ^ 31)%N → int_of_uint u = Z.of_N u) ∧
  ((2 ^ 31 ≤ u)%N → int_of_uint u = Z.of_N u - 2 ^ 32) ∧
  (int_of_uint u = int_of_uint v → u = v).
Proof.
  intros Hu Hv. unfold int_of_uint.
  assert (0 ≤ Z.of_N u < 2 ^ 32) as Hu' by lia.
  assert (0 ≤ Z.of_N v < 2 ^ 32) as Hv' by lia.
  rewrite !Z.mod_small by lia.
  repeat split.
  - destruct (Z.ltb_spec (Z.of_N u) (2 ^ 31)); lia.
  - destruct (Z.ltb_spec (Z.of_N u) (2 ^ 31)); lia.
  - intros H. destruct (Z.ltb_spec (Z.of_N u) (2 ^ 31)); lia.
  - intros H. destruct (Z.ltb_spec (Z.of_N u) (2 ^ 31)); lia.
  - destruct (Z.ltb_spec (Z.of_N u) (2 ^ 31));
      destruct (Z.ltb_spec (Z.of_N v) (2 ^ 31)); lia.
Qed.

Lemma device_ids_do_not_collide_witness :
  int_of_uint 4294967295 = -1 ∧ int_of_uint 7 = 7.
Proof.
  destruct (device_ids_do_not_collide 4294967295 7) as (_ & _ & Hbig & _);
    [reflexivity|reflexivity|].
  destruct (device_ids_do_not_collide 7 7) as (_ & Hsmall & _);
    [reflexivity|reflexivity|].
  split; [apply Hbig; discriminate|apply Hsmall; reflexivity].
Defined.

(** ** More of the disconnect handler *)

Lemma takeAll_settings (cams : list DVRCamera) :
  ∀ s, settings (takeAll cams s).1 = settings s.
Proof.
  induction cams as [|c cams IH]; intros s; [done|].
  simpl. specialize (IH (setOnline c false (set_cameras cams s))).
  destruct (takeAll cams _) as [s1 sigs]. exact IH.
Qed.

(** X10.  A disconnect leaves the settings alone: what was pinned stays
    pinned, and a certificate is known after it exactly when it was
    known before. *)
Theorem disconnected_keeps_pin (sha1 : QByteArray → QByteArray)
    (s : DVRServer) (certificate : QSslCertificate) :
  (∀ key, readSetting (disconnected s).1 key = readSetting s key) ∧
  (isKnownCertificate sha1 (disconnected s).1 certificate).1
  = (isKnownCertificate sha1 s certificate).1.
Proof.
  assert (settings (disconnected s).1 = settings s) as Hs.
  { unfold disconnected. pose proof (takeAll_settings (m_cameras s) s) as H.
    by destruct (takeAll _ _). }
  assert (∀ key, readSetting (disconnected s).1 key = readSetting s key) as Hr.
  { intros key. unfold readSetting. by rewrite Hs. }
  split; [exact Hr|].
  unfold isKnownCertificate. rewrite Hr.
  by destruct (QStr.isEmpty _).
Qed.

Lemma server_eta (s : DVRServer) :
  mkServer (m_cameras s) (devicesLoaded s) (m_statusAlertMessage s)
           (m_refreshTimer s) (settings s) (api_isOnline s) (cameraData s) = s.
Proof. by destruct s. Qed.

(** X11.  A second disconnect right after the first finds nothing to clear: it
    leaves the server as it is and emits the alert notification alone. *)
Theorem disconnected_twice (s : DVRServer) :
  disconnected (disconnected s).1
  = ((disconnected s).1, [statusAlertMessageChanged ""]).
Proof.
  assert (m_cameras (disconnected s).1 = [] ∧
          devicesLoaded (disconnected s).1 = false ∧
          m_statusAlertMessage (disconnected s).1 = "") as (Hc & Hd & Hm).
  { unfold disconnected.
    destruct (takeAll_fields (m_cameras s) s) as (Hc & _).
    by destruct (takeAll _ _). }
  set (s1 := (disconnected s).1) in *.
  unfold disconnected at 1. rewrite Hc. simpl.
  unfold set_statusAlertMessage, set_devicesLoaded, set_cameras. simpl.
  rewrite <- Hc, <- Hd, <- Hm at 1. by rewrite server_eta.
Qed.

(** ** More of the pinned certificate *)

Section TrustMore.

Variable sha1 : QByteArray → QByteArray.
Hypothesis sha1_length : ∀ m, String.length (sha1 m) = 20%nat.

(** X12.  [setKnownCertificate] pins anew whatever was pinned: after it a
    certificate is known exactly when its digest is that of the
    certificate given, and asking changes nothing. *)
Theorem setKnownCertificate_overrides (s : DVRServer)
    (certB cert : QSslCertificate) :
  let s' := (setKnownCertificate sha1 certB s).1 in
  readSetting s' "sslDigest" = digest sha1 certB ∧
  ((isKnownCertificate sha1 s' cert).1 = true
   ↔ digest sha1 cert = digest sha1 certB) ∧
  (isKnownCertificate sha1 s' cert).2 = (s', []).
Proof.
  intros s'.
  assert (Hpin : readSetting s' "sslDigest" = digest sha1 certB).
  { unfold s', setKnownCertificate, writeSetting, readSetting. simpl.
    by rewrite lookup_insert_eq. }
  split; [exact Hpin|].
  unfold isKnownCertificate. rewrite Hpin.
  rewrite (digest_not_empty sha1 sha1_length). simpl.
  split; [apply String.eqb_eq|done].
Qed.

End TrustMore.

Lemma setKnownCertificate_overrides_witness :
  let certA := mkCertificate "certificate A" in
  let certB := mkCertificate "certificate B" in
  let pinnedA := (isKnownCertificate fill20 (newServer ∅) certA).2.1 in
  let pinnedB := (setKnownCertificate fill20 certB pinnedA).1 in
  (isKnownCertificate fill20 pinnedB certB).1 = true ∧
  (isKnownCertificate fill20 pinnedB certA).1 = false.
Proof.
  intros certA certB pinnedA pinnedB.
  destruct (setKnownCertificate_overrides fill20 (fill_length 20)
              pinnedA certB certB) as (_ & HB & _).
  destruct (setKnownCertificate_overrides fill20 (fill_length 20)
              pinnedA certB certA) as (_ & HA & _).
  split; [by apply HB|].
  apply not_true_is_false. intros E. apply HA in E. discriminate E.
Defined.

(** ** The configuration and the settings *)

Section ConfigFacts.
Import Config.

Variable toString : QVariant → QString.
Variable toInt : QVariant → Z.
Variable toBool : QVariant → bool.

Local Abbreviation readFromSettings := (readFromSettings toString toInt toBool).
Local Abbreviation construct := (construct toString toInt toBool).
Local Abbreviation coherent := (coherent toString toInt toBool).

(** X13.  Whatever the settings hold and however the values convert,
    [readFromSettings] leaves the port 7001 when the port it reads is 0,
    as for a stored 0 or for no stored port, and leaves the port it
    reads otherwise; so the port is never 0 afterwards, and reading
    once more changes nothing. *)
Theorem readFromSettings_port (e : Endpoint) :
  (toInt (readSetting e "port" Invalid) = 0 →
   serverPort (readFromSettings e) = 7001) ∧
  (toInt (readSetting e "port" Invalid) ≠ 0 →
   serverPort (readFromSettings e) = toInt (readSetting e "port" Invalid)) ∧
  serverPort (readFromSettings e) ≠ 0 ∧
  (readFromSettings e = e → serverPort e ≠ 0) ∧
  readFromSettings (readFromSettings e) = readFromSettings e.
Proof.
  assert (serverPort (readFromSettings e) ≠ 0) as Hport.
  { unfold serverPort, readFromSettings. simpl.
    destruct (Z.eqb_spec (toInt (readSetting e "port" Invalid)) 0); [done|done]. }
  split; [|split; [|split; [exact Hport|split; [by intros <-|done]]]].
  - intros Hzero. unfold serverPort, readFromSettings. cbn [m_port].
    by rewrite Hzero.
  - intros Hport'. unfold serverPort, readFromSettings. cbn [m_port].
    by destruct (Z.eqb_spec (toInt (readSetting e "port" Invalid)) 0).
Qed.

(** A value comes back as it was written. *)
Hypothesis toString_string : ∀ s, toString (VString s) = s.
Hypothesis toInt_int : ∀ n, toInt (VInt n) = n.
Hypothesis toBool_bool : ∀ b, toBool (VBool b) = b.

Lemma coherent_fields (e : Endpoint) :
  coherent e →
  toString (readSetting e "displayName" Invalid) = m_displayName e ∧
  toString (readSetting e "hostname" Invalid) = m_hostname e ∧
  (if toInt (readSetting e "port" Invalid) =? 0 then 7001
   else toInt (readSetting e "port" Invalid)) = m_port e ∧
  toString (readSetting e "username" Invalid) = m_username e ∧
  toString (readSetting e "password" Invalid) = m_password e ∧
  toBool (readSetting e "autoConnect" (VBool true)) = m_autoConnect e.
Proof.
  unfold Config.coherent, Config.readFromSettings. destruct e. simpl.
  intros [= -> -> -> -> -> ->]. done.
Qed.

Lemma coherent_intro (e : Endpoint) :
  toString (readSetting e "displayName" Invalid) = m_displayName e →
  toString (readSetting e "hostname" Invalid) = m_hostname e →
  (if toInt (readSetting e "port" Invalid) =? 0 then 7001
   else toInt (readSetting e "port" Invalid)) = m_port e →
  toString (readSetting e "username" Invalid) = m_username e →
  toString (readSetting e "password" Invalid) = m_password e →
  toBool (readSetting e "autoConnect" (VBool true)) = m_autoConnect e →
  coherent e.
Proof.
  unfold Config.coherent, Config.readFromSettings. destruct e. simpl.
  by intros -> -> -> -> -> ->.
Qed.

Ltac fields :=
  unfold readSetting;
  cbn [fst m_displayName m_hostname m_port m_username m_password
       m_autoConnect qsettings set_displayName set_hostname set_port
       set_username set_password set_autoConnect set_qsettings].

Ltac other_key := fields; rewrite lookup_insert_ne by discriminate.

Ltac this_key :=
  fields; rewrite lookup_insert_eq; cbn [default from_option id].

Ltac written :=
  first [ this_key; first [apply toString_string | apply toBool_bool]
        | other_key; assumption ].

(** X14.  The setters of the name, the host, the user, the password and the
    auto-connect flag give the field the value asked for and keep the
    fields in step with the settings: a reload reads the same fields. *)
Theorem setters_keep_coherent (e : Endpoint) :
  coherent e →
  (∀ v, displayName (setDisplayName v e).1 = v ∧ coherent (setDisplayName v e).1) ∧
  (∀ v, hostname (setHostname v e).1 = v ∧ coherent (setHostname v e).1) ∧
  (∀ v, username (setUsername v e).1 = v ∧ coherent (setUsername v e).1) ∧
  (∀ v, password (setPassword v e).1 = v ∧ coherent (setPassword v e).1) ∧
  (∀ v, autoConnect (setAutoConnect v e).1 = v ∧ coherent (setAutoConnect v e).1).
Proof.
  intros Hco.
  destruct (coherent_fields e Hco) as (Hd & Hh & Hp & Hu & Hw & Ha).
  unfold readSetting in Hd, Hh, Hp, Hu, Hw, Ha.
  split; [|split; [|split; [|split]]]; intros v; (split; [|]).
  - unfold setDisplayName, displayName.
    destruct (String.eqb_spec (m_displayName e) v); [done|done].
  - unfold setDisplayName.
    destruct (String.eqb_spec (m_displayName e) v); [done|].
    unfold writeSetting. apply coherent_intro; written.
  - done.
  - unfold setHostname, writeSetting. apply coherent_intro; written.
  - done.
  - unfold setUsername, writeSetting. apply coherent_intro; written.
  - done.
  - unfold setPassword, writeSetting. apply coherent_intro; written.
  - done.
  - unfold setAutoConnect, writeSetting. apply coherent_intro; written.
Qed.

(** X15.  [setPort] gives the field the port asked for, 0 included, and writes
    7001 in place of 0: after [setPort 0] the server says port 0 while a
    reload reads 7001; for any other port the two agree. *)
Theorem setPort_reload (e : Endpoint) (port : Z) :
  coherent e →
  serverPort (setPort port e).1 = port ∧
  serverPort (readFromSettings (setPort port e).1)
  = (if port =? 0 then 7001 else port) ∧
  (coherent (setPort port e).1 ↔ port ≠ 0).
Proof.
  intros Hco.
  destruct (coherent_fields e Hco) as (Hd & Hh & Hp & Hu & Hw & Ha).
  unfold readSetting in Hd, Hh, Hp, Hu, Hw, Ha.
  assert (Hreload : serverPort (readFromSettings (setPort port e).1)
                    = (if port =? 0 then 7001 else port)).
  { unfold serverPort, Config.readFromSettings, setPort, writeSetting.
    this_key. rewrite toInt_int.
    destruct (Z.eqb_spec port 0) as [->|?]; [done|].
    by destruct (Z.eqb_spec port 0). }
  split; [done|]. split; [exact Hreload|]. split.
  - intros Hco' ->. rewrite Hco' in Hreload. discriminate Hreload.
  - intros Hne. unfold setPort, writeSetting.
    apply coherent_intro; try written.
    this_key. rewrite toInt_int. destruct (Z.eqb_spec port 0); [done|].
    by destruct (Z.eqb_spec port 0).
Qed.

(** X16.  A server constructed anew over the settings that [setHostname],
    [setUsername] and [setAutoConnect] have written shows these values
    and schedules a login exactly when the flag is set and neither the
    host nor the user is empty. *)
Theorem constructed_from_setters (e : Endpoint) (h u : QString) (a : bool) :
  let written :=
    (setAutoConnect a (setUsername u (setHostname h e).1).1).1 in
  let made := construct (qsettings written) in
  hostname made.1 = h ∧ username made.1 = u ∧ autoConnect made.1 = a ∧
  made.2 = a && negb (QStr.isEmpty h) && negb (QStr.isEmpty u).
Proof.
  intros written made.
  assert (hostname made.1 = h) as Hh.
  { unfold made, hostname, Config.construct, Config.readFromSettings.
    cbn [fst m_hostname]. unfold written, setAutoConnect, setUsername,
      setHostname, writeSetting. cbn [fst].
    do 2 other_key. this_key. apply toString_string. }
  assert (username made.1 = u) as Hu.
  { unfold made, username, Config.construct, Config.readFromSettings.
    cbn [fst m_username]. unfold written, setAutoConnect, setUsername,
      setHostname, writeSetting. cbn [fst].
    other_key. this_key. apply toString_string. }
  assert (autoConnect made.1 = a) as Ha.
  { unfold made, autoConnect, Config.construct, Config.readFromSettings.
    cbn [fst m_autoConnect]. unfold written, setAutoConnect, setUsername,
      setHostname, writeSetting. cbn [fst].
    this_key. apply toBool_bool. }
  split; [done|]. split; [done|]. split; [done|].
  unfold made, Config.construct. cbn [snd].
  fold (readFromSettings (mkEndpoint "" "" 0 "" "" false (qsettings written))).
  change (readFromSettings _) with made.1.
  unfold autoConnect in Ha. by rewrite Ha, Hh, Hu.
Qed.

(** An absent value reads as the empty string and as 0. *)
Hypothesis toString_invalid : toString Invalid = "".
Hypothesis toInt_invalid : toInt Invalid = 0.

(** X17.  Once [removeServer] has run, a server constructed over what is left
    of the settings has no name, host, user or password, the port 7001,
    the auto-connect flag set, and does not log in. *)
Theorem removed_server_is_forgotten (e : Endpoint) :
  (removeServer e).2 = [serverRemoved] ∧
  construct (qsettings (removeServer e).1)
  = (mkEndpoint "" "" 7001 "" "" true ∅, false).
Proof.
  split; [done|].
  unfold Config.construct, Config.readFromSettings, removeServer, readSetting.
  cbn [fst qsettings set_qsettings hostname username m_hostname m_username
       m_autoConnect].
  rewrite !lookup_empty. cbn [default from_option].
  rewrite toString_invalid, toInt_invalid, toBool_bool. done.
Qed.

End ConfigFacts.

(** ** The configuration on plain conversions *)

Lemma plain_string (s : QString) : Config.plainString (Config.VString s) = s.
Proof. done. Qed.

Lemma plain_int (n : Z) : Config.plainInt (Config.VInt n) = n.
Proof. done. Qed.

Lemma plain_bool (b : bool) : Config.plainBool (Config.VBool b) = b.
Proof. done. Qed.

Lemma readFromSettings_port_witness :
  let read := Config.readFromSettings Config.plainString Config.plainInt
                Config.plainBool in
  let stored port :=
    Config.mkEndpoint "" "" 0 "" "" false {["port" := Config.VInt port]} in
  Config.serverPort (read (stored 0)) = 7001 ∧
  Config.serverPort (read (Config.mkEndpoint "" "" 0 "" "" false ∅)) = 7001 ∧
  Config.serverPort (read (stored 8080)) = 8080.
Proof.
  intros read stored.
  split; [|split].
  - apply (readFromSettings_port Config.plainString Config.plainInt
             Config.plainBool (stored 0)). reflexivity.
  - apply (readFromSettings_port Config.plainString Config.plainInt
             Config.plainBool (Config.mkEndpoint "" "" 0 "" "" false ∅)).
    reflexivity.
  - apply (readFromSettings_port Config.plainString Config.plainInt
             Config.plainBool (stored 8080)). vm_compute. discriminate.
Defined.

Lemma setters_keep_coherent_witness :
  let e := (Config.construct Config.plainString Config.plainInt
              Config.plainBool ∅).1 in
  Config.hostname (Config.setHostname "dvr.example" e).1 = "dvr.example" ∧
  Config.coherent Config.plainString Config.plainInt Config.plainBool
    (Config.setHostname "dvr.example" e).1.
Proof.
  intros e.
  destruct (setters_keep_coherent Config.plainString Config.plainInt
              Config.plainBool plain_string plain_bool e)
    as (_ & Hhost & _); [reflexivity|].
  apply Hhost.
Defined.

Lemma setPort_reload_witness :
  let e := (Config.construct Config.plainString Config.plainInt
              Config.plainBool ∅).1 in
  Config.serverPort (Config.setPort 0 e).1 = 0 ∧
  Config.serverPort
    (Config.readFromSettings Config.plainString Config.plainInt
       Config.plainBool (Config.setPort 0 e).1) = 7001.
Proof.
  intros e.
  destruct (setPort_reload Config.plainString Config.plainInt
              Config.plainBool plain_int e 0) as (Hmem & Hreload & _);
    [reflexivity|].
  split; [exact Hmem|exact Hreload].
Defined.

Lemma constructed_from_setters_witness :
  let e := (Config.construct Config.plainString Config.plainInt
              Config.plainBool ∅).1 in
  let written :=
    (Config.setAutoConnect true
       (Config.setUsername "admin" (Config.setHostname "dvr.example" e).1).1).1 in
  (Config.construct Config.plainString Config.plainInt Config.plainBool
     (Config.qsettings written)).2 = true.
Proof.
  intros e written.
  destruct (constructed_from_setters Config.plainString Config.plainInt
              Config.plainBool plain_string plain_bool e
              "dvr.example" "admin" true) as (_ & _ & _ & Hlogin).
  exact Hlogin.
Defined.

Lemma removed_server_is_forgotten_witness :
  let e := Config.mkEndpoint "cellar" "dvr.example" 7001 "admin" "secret" true
             {["hostname" := Config.VString "dvr.example";
               "username" := Config.VString "admin"]} in
  Config.construct Config.plainString Config.plainInt Config.plainBool
    (Config.qsettings (Config.removeServer e).1)
  = (Config.mkEndpoint "" "" 7001 "" "" true ∅, false).
Proof.
  intros e.
  apply (removed_server_is_forgotten Config.plainString Config.plainInt
           Config.plainBool plain_bool eq_refl eq_refl e).
Defined.

(** * Where the ids of a parse come from *)

Section ReplySource.
Import Xml XmlFacts.

Variable toUInt : QString → option N.
Variable parseXML : DVRCamera → Xml.Reader → bool * Xml.Reader.

Local Abbreviation devicesTurn := (devicesTurn toUInt parseXML).
Local Abbreviation devicesLoop := (devicesLoop toUInt parseXML).
Local Abbreviation devicesDocument := (devicesDocument toUInt parseXML).
Local Abbreviation parseCameras := (parseCameras toUInt parseXML).
Local Abbreviation entryId := (entryId toUInt).
Local Abbreviation listedIn := (listedIn toUInt).

Lemma readNext_tokens (x : Reader) :
  (∀ t, t ∈ pending (readNext x) → t ∈ pending x) ∧
  (∀ t, token (readNext x) = Some t → t ∈ pending x).
Proof.
  unfold readNext.
  destruct (error x); [|split; [done|intros t; simpl; discriminate]..].
  destruct (pending x) as [|t0 ts] eqn:Ep;
    [split; [simpl; by rewrite Ep|intros t; simpl; discriminate]|].
  cbn [pending token]. split.
  - intros t Ht. by right.
  - intros t [= <-]. by left.
Qed.

Lemma readNextStartElement_tokens (x : Reader) t :
  t ∈ pending (readNextStartElement x).2 → t ∈ pending x.
Proof.
  unfold readNextStartElement. destruct (error x); try done.
  apply XmlMore.scanStartElement_tokens.
Qed.

(** [parseXML] takes its tokens from the reader: what is pending after
    it was pending before. *)
Hypothesis parseXML_within :
  ∀ c x t, t ∈ pending (parseXML c x).2 → t ∈ pending x.

(** A turn reads tokens of the reply only, and an id it takes in is the
    id of a [device] start tag of the reply. *)
Lemma devicesTurn_source (data : list Token) (p : Parse) :
  (∀ t, t ∈ pending (xml p) → t ∈ data) →
  (∀ id, id ∈ idSet p → listedIn data id) →
  (∀ t, t ∈ pending (xml (result (devicesTurn p))) → t ∈ data) ∧
  (∀ id, id ∈ idSet (result (devicesTurn p)) → listedIn data id).
Proof.
  intros Hpend Hids.
  destruct (readNext_tokens (xml p)) as [Hnext Htok].
  assert (∀ x, (∀ t, t ∈ pending x → t ∈ pending (xml p)) →
               (∀ t, t ∈ pending (xml (set_xml x p)) → t ∈ data) ∧
               (∀ id, id ∈ idSet (set_xml x p) → listedIn data id)) as Hmove.
  { intros x Hx. split; [|exact Hids].
    intros t Ht. by apply Hpend, Hx. }
  unfold devicesTurn.
  set (x := readNext (xml p)) in *.
  destruct (isInvalid x); [by apply Hmove|].
  destruct (isEndElement x && _); [by apply Hmove|].
  destruct (negb (isStartElement x)); [by apply Hmove|].
  destruct (String.eqb (name x) "device") eqn:En; [|by apply Hmove].
  destruct (value (attributes x) "id") as [idv|] eqn:Ev; [|by apply Hmove].
  destruct (toUInt idv) as [u|] eqn:Eu; [|by apply Hmove].
  assert (∀ id, id ∈ {[int_of_uint u]} ∪ idSet p → listedIn data id) as Hids'.
  { intros id Hid. apply elem_of_union in Hid as [Hid|Hid]; [|by apply Hids].
    apply elem_of_singleton in Hid as ->.
    unfold name, attributes in En, Ev.
    destruct (token x) as [[| |n attrs| | | | | |]|] eqn:Et; try discriminate.
    apply String.eqb_eq in En as ->.
    exists attrs. split; [by apply Hpend, Htok|].
    unfold entryId. by rewrite Ev, Eu. }
  unfold getCamera. cbv zeta. cbv iota beta.
  pose proof (parseXML_within (mkCamera (int_of_uint u)) x) as Hin.
  destruct (parseXML (mkCamera (int_of_uint u)) x) as [ok x'].
  cbn [snd] in Hin.
  assert (∀ t, t ∈ pending x' → t ∈ data) as Hpend'.
  { intros t Ht. by apply Hpend, Hnext, Hin. }
  destruct ok; cbn [negb].
  - by destruct (contains _ _).
  - by destruct (hasError x').
Qed.

Lemma devicesLoop_source (data : list Token) (fuel : nat) :
  ∀ p p', devicesLoop fuel p = Some p' →
  (∀ t, t ∈ pending (xml p) → t ∈ data) →
  (∀ id, id ∈ idSet p → listedIn data id) →
  (∀ t, t ∈ pending (xml p') → t ∈ data) ∧
  (∀ id, id ∈ idSet p' → listedIn data id).
Proof.
  induction fuel as [|fuel IH]; intros p p' Hrun Hpend Hids; [done|].
  simpl in Hrun.
  destruct (devicesTurn_source data p Hpend Hids) as [Hpend1 Hids1].
  destruct (devicesTurn p) as [p1|p1]; cbn [result] in Hpend1, Hids1.
  - by injection Hrun as <-.
  - by apply (IH p1 p').
Qed.

Lemma devicesDocument_source (data : list Token) (fuel : nat) :
  ∀ p b p', devicesDocument fuel p = Some (b, p') →
  (∀ t, t ∈ pending (xml p) → t ∈ data) →
  (∀ id, id ∈ idSet p → listedIn data id) →
  ∀ id, id ∈ idSet p' → listedIn data id.
Proof.
  induction fuel as [|fuel IH]; intros p b p' Hrun Hpend Hids; [done|].
  simpl in Hrun.
  pose proof (readNextStartElement_tokens (xml p)) as Hscan.
  destruct (readNextStartElement (xml p)) as [found x]. cbn [snd] in Hscan.
  destruct found; cbn [negb] in Hrun; [|by injection Hrun as _ <-].
  destruct (String.eqb (name x) "devices").
  - destruct (devicesLoop fuel (set_xml x p)) as [p1|] eqn:El;
      [|done].
    injection Hrun as _ <-.
    apply (devicesLoop_source data fuel _ _ El); [|done].
    intros t Ht. by apply Hpend, Hscan.
  - apply (IH _ _ _ Hrun); [|done].
    intros t Ht. apply Hpend, Hscan.
    by apply XmlMore.skipCurrentElement_tokens.
Qed.

(** Every id the parse of a reply has seen is the id of a [device]
    start tag of the reply. *)
Lemma parseCameras_source (s : DVRServer) (reply : QNetworkReply) p :
  parseCameras s reply = Some p →
  ∀ id, id ∈ idSet p → listedIn (readAll reply) id.
Proof.
  unfold parseCameras.
  destruct (devicesDocument _ _) as [[b p1]|] eqn:Ed; [|done].
  intros [= <-].
  pose proof (devicesDocument_source (readAll reply) _ _ _ _ Ed) as Hsrc.
  assert (∀ id, id ∈ idSet p1 → listedIn (readAll reply) id) as Hids.
  { apply Hsrc; [done|]. intros id Hid. by apply elem_of_empty in Hid. }
  by destruct b.
Qed.

End ReplySource.

(** * Replies by their parts *)

(** ** The device-list reply, entry by entry *)

Section PartsFacts.
Import Xml XmlFacts.

Variable toUInt : QString → option N.
Variable parseXML : DVRCamera → Xml.Reader → bool * Xml.Reader.

Local Abbreviation devicesTurn := (devicesTurn toUInt parseXML).
Local Abbreviation devicesLoop := (devicesLoop toUInt parseXML).
Local Abbreviation devicesDocument := (devicesDocument toUInt parseXML).
Local Abbreviation parseCameras := (parseCameras toUInt parseXML).
Local Abbreviation updateCamerasReply := (updateCamerasReply toUInt parseXML).
Local Abbreviation reconciled := (reconciled toUInt parseXML).
Local Abbreviation observedIds := (observedIds toUInt parseXML).
Local Abbreviation entryId := (entryId toUInt).
Local Abbreviation listedIds := (listedIds toUInt).
Local Abbreviation accepted := (accepted parseXML).
Local Abbreviation readable := (readable toUInt parseXML).
Local Abbreviation inError := (inError toUInt parseXML).
Local Abbreviation listedIn := (listedIn toUInt).

Lemma devicesTurn_passed (p : Parse) (t : Token) (ts : list Token) :
  error (xml p) = NoError → pending (xml p) = t :: ts → passedOver t →
  devicesTurn p = Continue (set_xml (mkReader (Some t) ts NoError) p).
Proof.
  intros He Hp Ht. unfold devicesTurn.
  rewrite (readNext_cons _ _ _ He Hp).
  destruct t; try done; cbn in Ht;
    cbn [isInvalid hasError error isEndElement isStartElement token name
         attributes andb negb].
  - destruct (String.eqb name0 "device") eqn:En; [|done].
    apply String.eqb_eq in En. by rewrite (Ht En).
  - assert (String.eqb name0 "devices" = false) as ->
      by by apply String.eqb_neq.
    done.
Qed.

Lemma devicesTurn_entry (p : Parse) attrs fields rest id :
  error (xml p) = NoError →
  pending (xml p)
  = StartElement "device" attrs :: fields ++ EndElement "device" :: rest →
  entryId attrs = Some id → accepted attrs fields →
  devicesTurn p =
    Continue
      (if contains (m_cameras (server p)) (mkCamera id) then
         mkParse (mkReader (Some (EndElement "device")) rest NoError)
                 ({[id]} ∪ idSet p) (marked (server p) id) (signals p)
       else
         mkParse (mkReader (Some (EndElement "device")) rest NoError)
                 ({[id]} ∪ idSet p)
                 (set_cameras (m_cameras (server p) ++ [mkCamera id])
                              (marked (server p) id))
                 (signals p ++ [cameraAdded (mkCamera id) true])).
Proof.
  intros He Hp Hid Hacc. unfold devicesTurn.
  rewrite (readNext_cons _ _ _ He Hp).
  cbn [isInvalid hasError error isEndElement isStartElement token name
       attributes andb negb].
  change (String.eqb "device" "device") with true. cbv iota.
  unfold entryId in Hid.
  destruct (value attrs "id") as [idv|]; [|discriminate].
  destruct (toUInt idv) as [u|]; [|discriminate].
  injection Hid as <-.
  unfold getCamera. cbv zeta. cbv iota beta.
  rewrite Hacc. cbn [negb].
  destruct (marked_fields (server p) (int_of_uint u)) as (Hc & _ & Hon).
  unfold marked, getCamera in *. cbn [snd] in *.
  rewrite Hon, Hc. by destruct (contains _ _).
Qed.

Lemma bodyTokens_cons (part : Part) (parts : list Part) :
  bodyTokens (part :: parts) = partTokens part ++ bodyTokens parts.
Proof. done. Qed.

Lemma bodyTokens_app (parts1 parts2 : list Part) :
  bodyTokens (parts1 ++ parts2) = bodyTokens parts1 ++ bodyTokens parts2.
Proof. unfold bodyTokens. by rewrite map_app, concat_app. Qed.

Lemma listedIds_app (parts1 parts2 : list Part) :
  listedIds (parts1 ++ parts2) = listedIds parts1 ++ listedIds parts2.
Proof.
  induction parts1 as [|[t|attrs fields] parts1 IH]; simpl; [done|done|].
  destruct (entryId attrs); simpl; by rewrite IH.
Qed.

Lemma listedIds_entry attrs fields parts id :
  entryId attrs = Some id →
  listedIds (Entry attrs fields :: parts) = id :: listedIds parts.
Proof. intros H. simpl. by rewrite H. Qed.

Lemma devicesLoop_S (fuel : nat) (p : Parse) :
  devicesLoop (S fuel) p =
    match devicesTurn p with
    | Break p' => Some p'
    | Continue p' => devicesLoop fuel p'
    end.
Proof. done. Qed.

(** The loop over readable parts: every entry is taken in, in order,
    and the loop stands at what follows the parts. *)
Lemma devicesLoop_parts (parts : list Part) :
  ∀ fuel p tail,
    Forall readable parts →
    error (xml p) = NoError →
    pending (xml p) = bodyTokens parts ++ tail →
    (length (pending (xml p)) < fuel)%nat →
    ∃ fuel' p1,
      devicesLoop fuel p = devicesLoop fuel' p1 ∧
      (length tail < fuel')%nat ∧
      error (xml p1) = NoError ∧ pending (xml p1) = tail ∧
      idSet p1 = idSet p ∪ list_to_set (listedIds parts) ∧
      m_cameras (server p1) =
        m_cameras (server p)
        ++ newCameras (m_cameras (server p)) (listedIds parts) ∧
      signals p1 =
        signals p
        ++ map (λ c, cameraAdded c true)
               (newCameras (m_cameras (server p)) (listedIds parts)).
Proof.
  induction parts as [|part parts IH]; intros fuel p tail Hall He Hp Hlen.
  { exists fuel, p. cbn [bodyTokens map concat app] in Hp.
    cbn [listedIds newCameras map list_to_set foldr].
    rewrite !app_nil_r. rewrite Hp in Hlen.
    refine (conj _ (conj _ (conj _ (conj _ (conj _ (conj _ _))))));
      [done|done|done|done| |done|done].
    by rewrite union_empty_r_L. }
  apply Forall_cons in Hall as [Hpart Hall].
  destruct fuel as [|fuel]; [lia|].
  rewrite bodyTokens_cons, <- app_assoc in Hp.
  rewrite devicesLoop_S.
  destruct part as [t|attrs fields].
  - cbn [partTokens app] in Hp.
    rewrite (devicesTurn_passed p t _ He Hp Hpart).
    destruct (IH fuel (set_xml (mkReader (Some t) (bodyTokens parts ++ tail)
                                         NoError) p) tail)
      as (fuel' & p1 & Hrun & Hf & He1 & Hp1 & Hi & Hc & Hs);
      [done|done|done| |].
    { cbn [xml set_xml pending]. rewrite Hp in Hlen.
      cbn [length] in Hlen. lia. }
    exists fuel', p1.
    refine (conj _ (conj _ (conj _ (conj _ (conj _ (conj _ _))))));
      done.
  - destruct Hpart as [[id Hid] Hacc].
    cbn [partTokens] in Hp.
    rewrite <- app_comm_cons, <- app_assoc in Hp. cbn [app] in Hp.
    rewrite (devicesTurn_entry p attrs fields _ id He Hp Hid Hacc).
    rewrite (listedIds_entry _ _ _ _ Hid). cbn [newCameras].
    unfold contains.
    assert (Hlen' : (length (bodyTokens parts ++ tail) < fuel)%nat).
    { rewrite Hp in Hlen. cbn [length] in Hlen.
      rewrite length_app in Hlen. cbn [length] in Hlen. lia. }
    destruct (marked_fields (server p) id) as (Hmc & _ & _).
    destruct (bool_decide (mkCamera id ∈ m_cameras (server p))).
    + destruct (IH fuel
                  (mkParse (mkReader (Some (EndElement "device"))
                                     (bodyTokens parts ++ tail) NoError)
                           ({[id]} ∪ idSet p) (marked (server p) id) (signals p))
                  tail)
        as (fuel' & p1 & Hrun & Hf & He1 & Hp1 & Hi & Hc & Hs);
        [done|done|done|done|].
      cbn [idSet server signals] in Hi, Hc, Hs. rewrite Hmc in Hc, Hs.
      exists fuel', p1.
      refine (conj _ (conj _ (conj _ (conj _ (conj _ (conj _ _))))));
        [done|done|done|done| |done|done].
      rewrite Hi. cbn [list_to_set foldr].
      by rewrite (comm_L (∪) {[id]} (idSet p)), <- (assoc_L (∪)).
    + destruct (IH fuel
                  (mkParse (mkReader (Some (EndElement "device"))
                                     (bodyTokens parts ++ tail) NoError)
                           ({[id]} ∪ idSet p)
                           (set_cameras (m_cameras (server p) ++ [mkCamera id])
                                        (marked (server p) id))
                           (signals p ++ [cameraAdded (mkCamera id) true]))
                  tail)
        as (fuel' & p1 & Hrun & Hf & He1 & Hp1 & Hi & Hc & Hs);
        [done|done|done|done|].
      cbn [idSet server signals m_cameras set_cameras] in Hi, Hc, Hs.
      exists fuel', p1.
      refine (conj _ (conj _ (conj _ (conj _ (conj _ (conj _ _))))));
        [done|done|done|done| | |].
      * rewrite Hi. cbn [list_to_set foldr].
        by rewrite (comm_L (∪) {[id]} (idSet p)), <- (assoc_L (∪)).
      * rewrite Hc. by rewrite <- !app_assoc.
      * rewrite Hs. cbn [map]. by rewrite <- !app_assoc.
Qed.

Lemma newCameras_covers (ids : list Z) :
  ∀ have id, id ∈ ids → mkCamera id ∈ have ++ newCameras have ids.
Proof.
  induction ids as [|id0 ids IH]; intros have id Hin.
  { by apply elem_of_nil in Hin. }
  cbn [newCameras]. apply elem_of_cons in Hin as [->|Hin].
  - case_bool_decide as Hhave.
    + apply elem_of_app. by left.
    + apply elem_of_app. right. by left.
  - case_bool_decide as Hhave; [by apply IH|].
    specialize (IH (have ++ [mkCamera id0]) id Hin).
    by rewrite <- app_assoc in IH.
Qed.

Lemma scanStartElement_prolog (prolog : list Token) n a body :
  Forall nonElement prolog →
  scanStartElement (prolog ++ StartElement n a :: body)
  = (true, mkReader (Some (StartElement n a)) body NoError).
Proof.
  induction prolog as [|t prolog IH]; intros Hall; [done|].
  apply Forall_cons in Hall as [Ht Hall].
  destruct t; try done; simpl; by apply IH.
Qed.

(** The parse of a document whose [devices] element begins with
    readable parts comes down to the loop at what follows them. *)
Lemma parseCameras_parts (s : DVRServer) prolog attrs parts tail :
  Forall nonElement prolog → Forall readable parts →
  ∃ fuel' p1,
    parseCameras s
      (mkReply None (prolog ++ StartElement "devices" attrs
                            :: bodyTokens parts ++ tail))
    = devicesLoop fuel' p1 ∧
    (length tail < fuel')%nat ∧
    error (xml p1) = NoError ∧ pending (xml p1) = tail ∧
    idSet p1 = list_to_set (listedIds parts) ∧
    m_cameras (server p1) =
      m_cameras s ++ newCameras (m_cameras s) (listedIds parts) ∧
    signals p1 =
      map (λ c, cameraAdded c true) (newCameras (m_cameras s) (listedIds parts)).
Proof.
  intros Hpro Hall.
  set (data := prolog ++ StartElement "devices" attrs :: bodyTokens parts ++ tail).
  set (p0 := mkParse (mkReader (Some (StartElement "devices" attrs))
                               (bodyTokens parts ++ tail) NoError) ∅ s []).
  destruct (devicesLoop_parts parts (S (length data)) p0 tail)
    as (fuel' & p1 & Hrun & Hf & He1 & Hp1 & Hi & Hc & Hs); [done|done|done| |].
  { subst data p0. cbn [xml pending]. rewrite (length_app prolog).
    cbn [length]. lia. }
  exists fuel', p1.
  split; [|split; [done|split; [done|split; [done|split; [|done]]]]].
  - rewrite <- Hrun. unfold parseCameras, fuel_for.
    cbn [readAll]. fold data.
    change (devicesDocument (S (S (length data)))
              (mkParse (Xml.open data) ∅ s []))
      with (let '(found, x) := readNextStartElement (Xml.open data) in
            if negb found then Some (false, set_xml x (mkParse (Xml.open data) ∅ s []))
            else if String.eqb (name x) "devices" then
              match devicesLoop (S (length data))
                      (set_xml x (mkParse (Xml.open data) ∅ s [])) with
              | Some p' => Some (true, p')
              | None => None
              end
            else devicesDocument (S (length data))
                   (set_xml (skipCurrentElement x) (mkParse (Xml.open data) ∅ s []))).
    unfold readNextStartElement, Xml.open. cbn [error pending].
    subst data. rewrite (scanStartElement_prolog _ _ _ _ Hpro).
    cbn [negb name token set_xml xml idSet server signals].
    change (String.eqb "devices" "devices") with true. cbv iota.
    unfold set_xml. cbn [idSet server signals].
    fold p0. by destruct (devicesLoop _ p0).
  - rewrite Hi. subst p0. cbn [idSet]. by rewrite union_empty_l_L.
Qed.

Lemma devicesTurn_end (p : Parse) (rest : list Token) :
  error (xml p) = NoError →
  pending (xml p) = EndElement "devices" :: rest →
  devicesTurn p
  = Break (set_xml (mkReader (Some (EndElement "devices")) rest NoError) p).
Proof.
  intros He Hp. unfold devicesTurn.
  by rewrite (readNext_cons _ _ _ He Hp).
Qed.

Lemma bodyTokens_passed (ts : list Token) : bodyTokens (map Passed ts) = ts.
Proof.
  induction ts as [|t ts IH]; [done|].
  cbn [map]. rewrite bodyTokens_cons. cbn [partTokens app]. by rewrite IH.
Qed.

Lemma listedIds_passed (ts : list Token) : listedIds (map Passed ts) = [].
Proof. by induction ts as [|t ts IH]. Qed.

Lemma readable_passed (ts : list Token) :
  Forall passedOver ts → Forall readable (map Passed ts).
Proof.
  induction 1 as [|t ts Ht _ IH]; [by apply Forall_nil|].
  cbn [map]. by apply Forall_cons.
Qed.

(** The parse of a reply whose [devices] element holds readable parts
    and is closed: no error, and the ids and cameras of the entries. *)
Lemma parseCameras_closed (s : DVRServer) prolog attrs parts rest :
  Forall nonElement prolog → Forall readable parts →
  ∃ p,
    parseCameras s (mkReply None (devicesData prolog attrs parts rest))
    = Some p ∧
    hasError (xml p) = false ∧
    idSet p = list_to_set (listedIds parts) ∧
    m_cameras (server p) =
      m_cameras s ++ newCameras (m_cameras s) (listedIds parts) ∧
    signals p =
      map (λ c, cameraAdded c true) (newCameras (m_cameras s) (listedIds parts)).
Proof.
  intros Hpro Hall. unfold devicesData.
  destruct (parseCameras_parts s prolog attrs parts
              (EndElement "devices" :: rest) Hpro Hall)
    as (fuel' & p1 & Hrun & Hf & He1 & Hp1 & Hi & Hc & Hs).
  destruct fuel' as [|fuel']; [cbn [length] in Hf; lia|].
  rewrite devicesLoop_S, (devicesTurn_end p1 rest He1 Hp1) in Hrun.
  eexists. split; [exact Hrun|]. by repeat split.
Qed.

(** Such a reply is reconciled; the ids seen, and then the ids of the
    cameras of the server, are the ids of its entries, and the cameras
    of the entries are online. *)
Lemma reply_closed (s : DVRServer) prolog attrs parts rest :
  Forall nonElement prolog → Forall readable parts →
  reconciled s (Some (mkReply None (devicesData prolog attrs parts rest)))
  = true ∧
  observedIds s (Some (mkReply None (devicesData prolog attrs parts rest)))
  = list_to_set (listedIds parts) ∧
  ∃ s' sigs,
    updateCamerasReply s
      (Some (mkReply None (devicesData prolog attrs parts rest)))
    = Some (s', sigs) ∧
    cameraIds (m_cameras s') = list_to_set (listedIds parts) ∧
    ∀ id, id ∈ listedIds parts →
          mkCamera id ∈ m_cameras s' ∧ isOnline s' (mkCamera id) = true.
Proof.
  intros Hpro Hall.
  destruct (parseCameras_closed s prolog attrs parts rest Hpro Hall)
    as (p & Hp & Herr & Hi & Hc & Hs).
  set (r := mkReply None (devicesData prolog attrs parts rest)) in *.
  destruct (parseCameras_extends toUInt parseXML s r p Hp) as [Hcov _].
  destruct (parseCameras_parsedFrom toUInt parseXML s r p Hp)
    as (_ & _ & _ & _ & _ & Hon & _).
  split; [|split].
  - unfold reconciled. cbn [errorString r]. by rewrite Hp, Herr.
  - unfold observedIds. by rewrite Hp.
  - unfold updateCamerasReply. cbn [errorString r]. rewrite Hp, Herr.
    pose proof (covered_cameraIds p (bool_decide (m_cameras s = [])) Hcov Herr)
      as Hids.
    pose proof (reconcile_cameras (bool_decide (m_cameras s = [])) p) as Hkept.
    pose proof (reconcile_data (bool_decide (m_cameras s = [])) p) as Hdata.
    destruct (reconcile _ p) as [s' sigs]. cbn [fst] in Hids, Hkept, Hdata.
    exists s', sigs. split; [done|]. split; [by rewrite Hids|].
    intros id Hid.
    assert (id ∈ idSet p) as Hin by (rewrite Hi; by apply elem_of_list_to_set).
    split.
    + rewrite Hkept. apply list_elem_of_filter. split; [done|].
      by apply Hcov.
    + unfold isOnline. cbn [uniqueId]. by rewrite Hdata, (Hon id Hin).
Qed.

(** C4, as amended.  In a reply whose [devices] element comes first and
    begins with readable parts, a [device] entry whose id attribute is
    not a non-negative integer, or whose fields [parseXML] rejects, ends
    the processing of the reply there, whatever comes after the entry:
    the reply is not reconciled; the signals are the [cameraAdded] of
    the cameras new among the entries before it and nothing else; the
    camera list is the old one with these cameras appended, so that the
    camera of every entry before it is in the list and online;
    [devicesLoaded] is as it was.  A [device] entry without an id
    attribute, and with nothing in it that the loop stops at, is passed
    over alone: the reply is reconciled, and the ids of the cameras of
    the server are the ids of the entries before and after it, each of
    them in the list and online. *)
Theorem entry_error_ends_parse (s : DVRServer) :
  (∀ prolog dattrs before attrs tail,
     Forall nonElement prolog → Forall readable before →
     inError attrs tail →
     let reply :=
       Some (mkReply None
               (prolog ++ StartElement "devices" dattrs
                       :: bodyTokens before
                       ++ StartElement "device" attrs :: tail)) in
     let added := newCameras (m_cameras s) (listedIds before) in
     reconciled s reply = false ∧
     ∃ s',
       updateCamerasReply s reply
       = Some (s', map (λ c, cameraAdded c true) added) ∧
       m_cameras s' = m_cameras s ++ added ∧
       devicesLoaded s' = devicesLoaded s ∧
       ∀ id, id ∈ listedIds before →
             mkCamera id ∈ m_cameras s' ∧ isOnline s' (mkCamera id) = true) ∧
  (∀ prolog dattrs before attrs fields after rest,
     Forall nonElement prolog →
     Forall readable before → Forall readable after →
     value attrs "id" = None → Forall passedOver fields →
     let reply :=
       Some (mkReply None
               (prolog ++ StartElement "devices" dattrs
                       :: bodyTokens before
                       ++ (StartElement "device" attrs
                             :: fields ++ [EndElement "device"])
                       ++ bodyTokens after
                       ++ EndElement "devices" :: rest)) in
     reconciled s reply = true ∧
     ∃ s' sigs,
       updateCamerasReply s reply = Some (s', sigs) ∧
       cameraIds (m_cameras s')
       = list_to_set (listedIds before ++ listedIds after) ∧
       ∀ id, id ∈ listedIds before ++ listedIds after →
             mkCamera id ∈ m_cameras s' ∧ isOnline s' (mkCamera id) = true).
Proof.
  split.
  - intros prolog dattrs before attrs tail Hpro Hall (idv & Hv & Hbad)
           reply added.
    destruct (parseCameras_parts s prolog dattrs before
                (StartElement "device" attrs :: tail) Hpro Hall)
      as (fuel' & p1 & Hrun & Hf & He1 & Hp1 & Hi & Hc & Hs).
    destruct fuel' as [|[|fuel']]; [cbn [length] in Hf; lia..|].
    destruct (bad_entry_stops_loop toUInt parseXML) as [Hstop _].
    destruct (Hstop p1 attrs tail idv fuel' He1 Hp1 Hv Hbad)
      as (p' & Hloop & Herr & Hc' & Hs').
    rewrite Hloop in Hrun.
    pose proof (devicesLoop_extends toUInt parseXML _ _ _ Hloop)
      as (_ & _ & _ & _ & Hsub).
    destruct (parseCameras_extends toUInt parseXML s _ p' Hrun)
      as (_ & _ & _ & _ & Hd).
    destruct (parseCameras_parsedFrom toUInt parseXML s _ p' Hrun)
      as (_ & _ & _ & _ & _ & Hon & _).
    split.
    + unfold reconciled, reply. cbn [errorString]. by rewrite Hrun, Herr.
    + exists (server p'). unfold updateCamerasReply, reply.
      cbn [errorString]. rewrite Hrun, Herr, Hs', Hs, Hc', Hc.
      split; [done|]. split; [done|]. split; [done|].
      intros id Hid. split; [by apply newCameras_covers|].
      unfold isOnline. cbn [uniqueId]. rewrite (Hon id); [done|].
      apply Hsub. rewrite Hi. by apply elem_of_list_to_set.
  - intros prolog dattrs before attrs fields after rest Hpro Hbefore Hafter
           Hv Hfields reply.
    set (entry := StartElement "device" attrs :: fields ++ [EndElement "device"]).
    assert (Forall passedOver entry) as Hentry.
    { subst entry. apply Forall_cons. split; [by intros _|].
      apply Forall_app. split; [done|]. by apply Forall_singleton. }
    set (parts := before ++ map Passed entry ++ after).
    assert (Forall readable parts) as Hall.
    { subst parts. apply Forall_app. split; [done|].
      apply Forall_app. split; [by apply readable_passed|done]. }
    assert (listedIds parts = listedIds before ++ listedIds after) as Hids.
    { subst parts. by rewrite !listedIds_app, listedIds_passed. }
    assert (reply = Some (mkReply None (devicesData prolog dattrs parts rest)))
      as ->.
    { subst reply parts. unfold devicesData.
      rewrite !bodyTokens_app, bodyTokens_passed.
      by rewrite <- !app_assoc. }
    destruct (reply_closed s prolog dattrs parts rest Hpro Hall)
      as (Hrec & _ & s' & sigs & Hrun & Hcams & Hon).
    rewrite Hids in Hcams, Hon.
    split; [done|]. by exists s', sigs.
Qed.

(** [parseXML] reads forward: it leaves no more tokens pending than it
    found. *)
Hypothesis parseXML_forward :
  ∀ c x, (length (pending (parseXML c x).2) ≤ length (pending x))%nat.

(** C1.  Every device-list reply is handled to the end, and when it was
    reconciled the ids of the cameras of the server are the ids the
    parse has seen in it.  These are the device ids in the reply.  When
    the [devices] element comes first, holds readable parts and is
    closed, the reply is reconciled, and the ids seen and the ids of
    the cameras of the server afterwards are the ids of its [device]
    entries, whatever cameras the server had before.  And in every
    reply, when [parseXML] takes its tokens from the reader, an id the
    parse has seen is the id of a [device] start tag of the reply. *)
Theorem camera_set_is_observed_set (s : DVRServer) :
  (∀ reply,
     ∃ s' sigs,
       updateCamerasReply s reply = Some (s', sigs) ∧
       (reconciled s reply = true →
        cameraIds (m_cameras s') = observedIds s reply)) ∧
  (∀ prolog attrs parts rest,
     Forall nonElement prolog → Forall readable parts →
     let reply := Some (mkReply None (devicesData prolog attrs parts rest)) in
     reconciled s reply = true ∧
     observedIds s reply = list_to_set (listedIds parts) ∧
     ∃ s' sigs,
       updateCamerasReply s reply = Some (s', sigs) ∧
       cameraIds (m_cameras s') = list_to_set (listedIds parts)) ∧
  ((∀ c x t, t ∈ pending (parseXML c x).2 → t ∈ pending x) →
   ∀ r id, id ∈ observedIds s (Some r) → listedIn (readAll r) id).
Proof.
  split; [|split].
  - intros reply.
    exact (camera_ids_are_idSet toUInt parseXML parseXML_forward s reply).
  - intros prolog attrs parts rest Hpro Hall reply.
    destruct (reply_closed s prolog attrs parts rest Hpro Hall)
      as (Hrec & Hobs & s' & sigs & Hrun & Hcams & _).
    split; [done|]. split; [done|]. by exists s', sigs.
  - intros Hwithin r id. unfold observedIds.
    destruct (parseCameras s r) as [p|] eqn:Hp.
    + by apply (parseCameras_source toUInt parseXML Hwithin s r p).
    + intros Hid. by apply elem_of_empty in Hid.
Qed.

End PartsFacts.

(** ** Stats replies by their parts *)

Section StatsParts.
Import Xml XmlFacts.

Lemma append_empty (s : QString) : (s ++ "")%string = s.
Proof.
  induction s as [|c s IH]; [done|].
  change (String c (s ++ "")%string = String c s). by rewrite IH.
Qed.

Lemma append_append (s1 s2 s3 : QString) :
  ((s1 ++ s2) ++ s3)%string = (s1 ++ (s2 ++ s3))%string.
Proof.
  induction s1 as [|c s1 IH]; [done|].
  change (String c ((s1 ++ s2) ++ s3)%string
          = String c (s1 ++ (s2 ++ s3))%string).
  by rewrite IH.
Qed.

(** [readElementText] over text tokens: their text, and the reader on
    the end element. *)
Lemma collectText_text (text : list Token) :
  ∀ acc n rest,
    Forall textToken text →
    collectText (text ++ EndElement n :: rest) acc
    = ((acc ++ textOf text)%string,
       mkReader (Some (EndElement n)) rest NoError).
Proof.
  induction text as [|t text IH]; intros acc n rest Hall.
  { cbn [app collectText textOf]. by rewrite append_empty. }
  apply Forall_cons in Hall as [Ht Hall].
  destruct t; try done; cbn [app collectText textOf];
    rewrite IH by done; by rewrite ?append_append.
Qed.

Lemma statsTokens_cons (part : StatsPart) (parts : list StatsPart) :
  statsTokens (part :: parts) = statsPartTokens part ++ statsTokens parts.
Proof. done. Qed.

Lemma childrenOf_app (parts1 parts2 : list StatsPart) :
  childrenOf (parts1 ++ parts2) = childrenOf parts1 ++ childrenOf parts2.
Proof.
  induction parts1 as [|[t|n a text] parts1 IH]; cbn; [done|done|].
  by rewrite IH.
Qed.

Lemma statsLoop_other (fuel : nat) x m h (t : Token) (ts : list Token) :
  error x = NoError → pending x = t :: ts → ignored t →
  statsLoop (S fuel) x m h = statsLoop fuel (mkReader (Some t) ts NoError) m h.
Proof.
  intros He Hp Ht. rewrite statsLoop_S, (readNext_cons _ _ _ He Hp).
  cbv zeta.
  destruct t; try done; cbn in Ht;
    cbn [isInvalid hasError error isEndElement isStartElement token name
         andb negb].
  - destruct Ht as [Hm Hb].
    assert (String.eqb name0 "message" = false) as ->
      by by apply String.eqb_neq.
    assert (String.eqb name0 "bc-server-running" = false) as ->
      by by apply String.eqb_neq.
    done.
  - assert (String.eqb name0 "stats" = false) as ->
      by by apply String.eqb_neq.
    done.
Qed.

Lemma statsLoop_childPart (fuel : nat) x m h n attrs text rest :
  error x = NoError →
  pending x = StartElement n attrs :: text ++ EndElement n :: rest →
  n = "message" ∨ n = "bc-server-running" → Forall textToken text →
  statsLoop (S fuel) x m h =
    statsLoop fuel (mkReader (Some (EndElement n)) rest NoError)
              (childEffect (m, h) (n, textOf text)).1
              (childEffect (m, h) (n, textOf text)).2.
Proof.
  intros He Hp Hn Htext. rewrite statsLoop_S, (readNext_cons _ _ _ He Hp).
  cbv zeta. unfold readElementText, childEffect.
  cbn [isInvalid hasError error isEndElement isStartElement token name
       andb negb pending fst snd].
  rewrite (collectText_text text "" n rest Htext).
  change ("" ++ textOf text)%string with (textOf text).
  destruct Hn as [-> | ->].
  - change (String.eqb "message" "message") with true. cbv iota.
    by destruct (QStr.isEmpty (textOf text)).
  - change (String.eqb "bc-server-running" "message") with false.
    change (String.eqb "bc-server-running" "bc-server-running") with true.
    cbv iota. by destruct (String.eqb (QStr.trimmed (textOf text)) "down").
Qed.

Lemma statsLoop_end (fuel : nat) x m h rest :
  error x = NoError → pending x = EndElement "stats" :: rest →
  statsLoop (S fuel) x m h
  = Some (mkReader (Some (EndElement "stats")) rest NoError, m, h).
Proof.
  intros He Hp. by rewrite statsLoop_S, (readNext_cons _ _ _ He Hp).
Qed.

(** The loop over text-only parts: the children take effect in document
    order, and the loop stands at what follows the parts. *)
Lemma statsLoop_parts (parts : list StatsPart) :
  ∀ fuel x m h tail,
    Forall textOnly parts →
    error x = NoError →
    pending x = statsTokens parts ++ tail →
    (length (pending x) < fuel)%nat →
    ∃ fuel' x1,
      statsLoop fuel x m h =
        statsLoop fuel' x1
                  (fold_left childEffect (childrenOf parts) (m, h)).1
                  (fold_left childEffect (childrenOf parts) (m, h)).2 ∧
      (length tail < fuel')%nat ∧
      error x1 = NoError ∧ pending x1 = tail.
Proof.
  induction parts as [|part parts IH]; intros fuel x m h tail Hall He Hp Hlen.
  { exists fuel, x. cbn [statsTokens map concat app] in Hp.
    rewrite Hp in Hlen. by cbn [childrenOf fold_left fst snd]. }
  apply Forall_cons in Hall as [Hpart Hall].
  destruct fuel as [|fuel]; [lia|].
  rewrite statsTokens_cons, <- app_assoc in Hp.
  destruct part as [t|n attrs text].
  - cbn [statsPartTokens app] in Hp.
    rewrite (statsLoop_other fuel x m h t _ He Hp Hpart).
    cbn [childrenOf].
    apply IH; [done|done|done|].
    cbn [pending]. rewrite Hp in Hlen. cbn [length] in Hlen. lia.
  - destruct Hpart as [Hn Htext].
    cbn [statsPartTokens] in Hp.
    rewrite <- app_comm_cons, <- app_assoc in Hp. cbn [app] in Hp.
    rewrite (statsLoop_childPart fuel x m h n attrs text _ He Hp Hn Htext).
    cbn [childrenOf fold_left].
    destruct (childEffect (m, h) (n, textOf text)) as [m1 h1].
    cbn [fst snd].
    apply IH; [done|done|done|].
    cbn [pending]. rewrite Hp in Hlen. cbn [length] in Hlen.
    rewrite length_app in Hlen. cbn [length] in Hlen. lia.
Qed.

(** The message of a reply whose [stats] element comes first, holds
    text-only parts and is closed, with no other [stats] element after
    it: the children take effect in document order. *)
Lemma statsMessage_parts prolog attrs (parts : list StatsPart) rest :
  Forall nonElement prolog → Forall textOnly parts →
  noElement "stats" rest →
  statsMessage (mkReply None (statsData prolog attrs parts rest)) =
    Some (let st := fold_left childEffect (childrenOf parts) ("", false) in
          if st.2 then st.1
          else "Status request error: invalid server response").
Proof.
  intros Hpro Hall Hrest. unfold statsMessage. cbn [errorString readAll].
  unfold fuel_for.
  set (data := statsData prolog attrs parts rest).
  set (st := fold_left childEffect (childrenOf parts) ("", false)).
  assert (statsDocument (S (S (length data))) (Xml.open data) "" false
          = Some st) as ->; [|by destruct st].
  set (x0 := mkReader (Some (StartElement "stats" attrs))
               (statsTokens parts ++ EndElement "stats" :: rest) NoError).
  assert (statsDocument (S (S (length data))) (Xml.open data) "" false
          = match statsLoop (S (length data)) x0 "" false with
            | Some (x, m, h) => statsDocument (S (length data)) x m h
            | None => None
            end) as ->.
  { change (statsDocument (S (S (length data))) (Xml.open data) "" false)
      with (let '(found, x) := readNextStartElement (Xml.open data) in
            if negb found then Some ("", false)
            else if String.eqb (name x) "stats" then
              match statsLoop (S (length data)) x "" false with
              | Some (x', m, h) => statsDocument (S (length data)) x' m h
              | None => None
              end
            else statsDocument (S (length data)) x "" false).
    unfold readNextStartElement, Xml.open. cbn [error pending].
    subst data. unfold statsData.
    by rewrite (scanStartElement_prolog _ _ _ _ Hpro). }
  destruct (statsLoop_parts parts (S (length data)) x0 "" false
              (EndElement "stats" :: rest))
    as (fuel' & x1 & Hrun & Hf & He1 & Hp1); [done|done|done| |].
  { subst data x0. unfold statsData. cbn [pending].
    rewrite (length_app prolog). cbn [length]. lia. }
  destruct fuel' as [|fuel']; [cbn [length] in Hf; lia|].
  rewrite (statsLoop_end fuel' x1 _ _ rest He1 Hp1) in Hrun.
  rewrite Hrun. fold st.
  rewrite statsDocument_none; [by destruct st| |done].
  cbn [pending]. subst data. unfold statsData.
  rewrite (length_app prolog). cbn [length]. rewrite length_app.
  cbn [length]. lia.
Qed.

Lemma fold_childEffect_silent (cs : list (QString * QString)) :
  ∀ m, (∀ txt, ("message", txt) ∉ cs) →
       (fold_left childEffect cs (m, false)).2 = false.
Proof.
  induction cs as [|[n t] cs IH]; intros m Hno; [done|].
  cbn [fold_left]. unfold childEffect at 2. cbn [fst snd].
  assert (∀ txt, ("message", txt) ∉ cs) as Hno'.
  { intros txt Hin. apply (Hno txt). by right. }
  destruct (String.eqb_spec n "message") as [->|_].
  { exfalso. apply (Hno t). by left. }
  destruct (String.eqb n "bc-server-running"); [|by apply IH].
  destruct (String.eqb (QStr.trimmed t) "down"); by apply IH.
Qed.

(** C6, as amended.  Take a stats reply without network error in which
    the [stats] element comes first, its [message] and
    [bc-server-running] children hold text only, no end of [stats]
    comes before its own and no other [stats] element follows it; white
    space, comments, attributes and other elements among the children
    do not matter.  When a [bc-server-running] child has the trimmed
    text "down", then (1) the message is "Server process stopped" when
    there is a [message] child and no [message] child with a text comes
    after the [bc-server-running] child; (2) a [message] child with a
    text after it, followed by quiet children only, gives the message
    instead; (3) without any [message] child the message is the
    invalid-response one. *)
Theorem server_down_message prolog attrs (pre post : list StatsPart)
    a text rest :
  Forall nonElement prolog →
  Forall textOnly pre → Forall textOnly post → Forall textToken text →
  noElement "stats" rest →
  QStr.trimmed (textOf text) = "down" →
  let reply parts := mkReply None (statsData prolog attrs parts rest) in
  ((∃ txt, ("message", txt) ∈ childrenOf (pre ++ post)) →
   (∀ txt, ("message", txt) ∈ childrenOf post → txt = "") →
   statsMessage (reply (pre ++ Child "bc-server-running" a text :: post))
   = Some "Server process stopped") ∧
  (∀ post1 post2 a' text',
     post = post1 ++ Child "message" a' text' :: post2 →
     textOf text' ≠ "" →
     (∀ c, c ∈ childrenOf post2 → quiet c) →
     statsMessage (reply (pre ++ Child "bc-server-running" a text :: post))
     = Some (textOf text')) ∧
  ((∀ txt, ("message", txt) ∉ childrenOf (pre ++ post)) →
   statsMessage (reply (pre ++ Child "bc-server-running" a text :: post))
   = Some "Status request error: invalid server response").
Proof.
  intros Hpro Hpre Hpost Htext Hrest Hdown reply.
  assert (Forall textOnly (pre ++ Child "bc-server-running" a text :: post))
    as Hall.
  { apply Forall_app. split; [done|]. apply Forall_cons. split; [|done].
    split; [by right|done]. }
  assert (∀ st, childEffect st ("bc-server-running", textOf text)
                = ("Server process stopped", st.2)) as Hstop.
  { intros st. unfold childEffect. cbn [fst snd]. rewrite Hdown.
    change (String.eqb "bc-server-running" "message") with false.
    change (String.eqb "bc-server-running" "bc-server-running") with true.
    by change (String.eqb "down" "down") with true. }
  split; [|split].
  - intros [txt Hmsg] Hafter. unfold reply.
    rewrite statsMessage_parts by done.
    rewrite childrenOf_app. cbn [childrenOf].
    rewrite fold_left_app. cbn [fold_left]. rewrite Hstop.
    rewrite fold_childEffect_stopped by done.
    assert ((fold_left childEffect (childrenOf post)
               ("Server process stopped",
                (fold_left childEffect (childrenOf pre) ("", false)).2)).2
            = true) as ->; [|done].
    rewrite childrenOf_app in Hmsg.
    apply elem_of_app in Hmsg as [Hin|Hin].
    + apply (fold_childEffect_had _ _ _ txt). left.
      by apply (fold_childEffect_had _ _ _ txt); right.
    + apply (fold_childEffect_had _ _ _ txt). by right.
  - intros post1 post2 a' text' -> Hne Hq. unfold reply.
    rewrite statsMessage_parts by done.
    rewrite childrenOf_app. cbn [childrenOf].
    rewrite childrenOf_app. cbn [childrenOf].
    rewrite !fold_left_app. cbn [fold_left]. rewrite fold_left_app.
    cbn [fold_left]. rewrite childEffect_message.
    assert (QStr.isEmpty (textOf text') = false) as ->
      by by destruct (textOf text').
    by rewrite fold_childEffect_quiet.
  - intros Hno. unfold reply.
    rewrite statsMessage_parts by done.
    rewrite childrenOf_app. cbn [childrenOf].
    rewrite fold_left_app. cbn [fold_left]. rewrite Hstop.
    rewrite fold_childEffect_silent.
    + rewrite fold_childEffect_silent; [done|].
      intros txt Hin. apply (Hno txt). rewrite childrenOf_app.
      apply elem_of_app. by right.
    + intros txt Hin. apply (Hno txt). rewrite childrenOf_app.
      apply elem_of_app. by left.
Qed.

(** X7.  In a stats reply in which the [stats] element comes first, its
    [message] and [bc-server-running] children hold text only, no end
    of [stats] comes before its own and no other [stats] element
    follows it, the last [message] child with a text gives the message,
    when every [message] or [bc-server-running] child after it is
    quiet: a [message] without text, or a [bc-server-running] that is
    not "down". *)
Theorem last_message_wins prolog attrs (pre post : list StatsPart)
    a text rest :
  Forall nonElement prolog →
  Forall textOnly pre → Forall textOnly post → Forall textToken text →
  noElement "stats" rest →
  textOf text ≠ "" →
  (∀ c, c ∈ childrenOf post → quiet c) →
  statsMessage
    (mkReply None
       (statsData prolog attrs (pre ++ Child "message" a text :: post) rest))
  = Some (textOf text).
Proof.
  intros Hpro Hpre Hpost Htext Hrest Hne Hq.
  rewrite statsMessage_parts; [|done| |done].
  - rewrite childrenOf_app. cbn [childrenOf].
    rewrite fold_left_app. cbn [fold_left].
    rewrite childEffect_message.
    assert (QStr.isEmpty (textOf text) = false) as ->
      by by destruct (textOf text).
    by rewrite fold_childEffect_quiet.
  - apply Forall_app. split; [done|]. apply Forall_cons. split; [|done].
    split; [by left|done].
Qed.

End StatsParts.

(** ** The replies of the examples, by their parts *)

Ltac shaped :=
  repeat first
    [ apply Forall_nil
    | apply Forall_cons; split
    | exact I
    | by intros _
    | by (split; [by eexists|intros c [|t rest]; reflexivity])
    | split; [by left|]
    | split; [by right|]
    | by (split; discriminate)
    | discriminate ].

Lemma parseXML_entry_within (c : DVRCamera) (x : Xml.Reader) t :
  t ∈ Xml.pending (parseXML_entry c x).2 → t ∈ Xml.pending x.
Proof. apply XmlMore.skipCurrentElement_tokens. Qed.

(** A server that has the cameras 2 and 5 gets a reply that lists the
    devices 1 and 2 between white space, a comment and an entry without
    id: afterwards the ids of its cameras are 1 and 2. *)
Lemma camera_set_is_observed_set_witness :
  let s := mkServer [mkCamera 2; mkCamera 5] true "" (Some 60000) ∅ true
                    {[2 := true; 5 := true]} in
  let parts :=
    [Passed (Xml.Characters " ");
     Entry [("id", "1")] (element "device_name" "door");
     Passed Xml.Comment;
     Passed (Xml.StartElement "device" [("name", "spare")]);
     Passed (Xml.EndElement "device");
     Entry [("protocol", "IP"); ("id", "2")]
           [Xml.Characters " "; Xml.StartElement "device_name" [];
            Xml.Characters "yard"; Xml.EndElement "device_name"];
     Passed (Xml.Characters " ")] in
  let data :=
    devicesData [Xml.StartDocument; Xml.Comment] [("count", "2")]
                parts [Xml.EndDocument] in
  let reply := Some (mkReply None data) in
  reconciled toUInt_decimal parseXML_entry s reply = true ∧
  (∃ s' sigs,
     updateCamerasReply toUInt_decimal parseXML_entry s reply = Some (s', sigs) ∧
     cameraIds (m_cameras s') = {[1; 2]}) ∧
  (∀ id, id ∈ observedIds toUInt_decimal parseXML_entry s reply →
         listedIn toUInt_decimal data id).
Proof.
  intros s parts data reply.
  destruct (camera_set_is_observed_set toUInt_decimal parseXML_entry
              parseXML_entry_forward s) as (_ & Hparts & Hsource).
  pose proof (Hparts [Xml.StartDocument; Xml.Comment] [("count", "2")]
                     parts [Xml.EndDocument] ltac:(shaped) ltac:(shaped))
    as Hreply.
  cbv zeta in Hreply.
  destruct Hreply as (Hrec & _ & s' & sigs & Hrun & Hids).
  split; [exact Hrec|]. split.
  - exists s', sigs. split; [exact Hrun|].
    rewrite Hids. vm_compute. reflexivity.
  - exact (Hsource parseXML_entry_within (mkReply None data)).
Defined.

(** The server with the cameras 1 and 2 gets a reply with the entries
    3, "x" and 4: camera 3 is added and online, camera 4 never comes,
    and the reply is not reconciled.  With an entry without id in the
    place of "x", the cameras are 3 and 4. *)
Lemma entry_error_ends_parse_witness :
  let before :=
    [Passed (Xml.Characters " ");
     Entry [("id", "3")] (element "device_name" "cam")] in
  let tail :=
    element "device_name" "cam" ++ [Xml.EndElement "device"]
      ++ device "4" ++ [Xml.EndElement "devices"; Xml.EndDocument] in
  let bad :=
    Some (mkReply None
            ([Xml.StartDocument] ++ Xml.StartElement "devices" []
               :: bodyTokens before
               ++ Xml.StartElement "device" [("id", "x")] :: tail)) in
  let noId :=
    Some (mkReply None
            ([Xml.StartDocument] ++ Xml.StartElement "devices" []
               :: bodyTokens before
               ++ (Xml.StartElement "device" [("name", "x")]
                     :: [Xml.Characters " "] ++ [Xml.EndElement "device"])
               ++ bodyTokens [Entry [("id", "4")] []]
               ++ Xml.EndElement "devices" :: [Xml.EndDocument])) in
  (reconciled toUInt_decimal parseXML_entry twoCameras bad = false ∧
   ∃ s',
     updateCamerasReply toUInt_decimal parseXML_entry twoCameras bad
     = Some (s', [cameraAdded (mkCamera 3) true]) ∧
     m_cameras s' = [mkCamera 1; mkCamera 2; mkCamera 3] ∧
     isOnline s' (mkCamera 3) = true) ∧
  (reconciled toUInt_decimal parseXML_entry twoCameras noId = true ∧
   ∃ s' sigs,
     updateCamerasReply toUInt_decimal parseXML_entry twoCameras noId
     = Some (s', sigs) ∧
     cameraIds (m_cameras s') = {[3; 4]}).
Proof.
  intros before tail bad noId.
  destruct (entry_error_ends_parse toUInt_decimal parseXML_entry twoCameras)
    as [Hbad HnoId].
  split.
  - assert (inError toUInt_decimal parseXML_entry [("id", "x")] tail)
      as Hx.
    { exists "x". split; [reflexivity|]. left. reflexivity. }
    pose proof (Hbad [Xml.StartDocument] [] before [("id", "x")] tail
                     ltac:(shaped) ltac:(shaped) Hx) as Hreply.
    cbv zeta in Hreply.
    destruct Hreply as (Hrec & s' & Hrun & Hcams & _ & Hon).
    split; [exact Hrec|].
    exists s'. split; [exact Hrun|]. split; [exact Hcams|].
    apply (Hon 3). by left.
  - pose proof (HnoId [Xml.StartDocument] [] before [("name", "x")]
                      [Xml.Characters " "] [Entry [("id", "4")] []]
                      [Xml.EndDocument] ltac:(shaped) ltac:(shaped)
                      ltac:(shaped) eq_refl ltac:(shaped)) as Hreply.
    cbv zeta in Hreply.
    destruct Hreply as (Hrec & s' & sigs & Hrun & Hids & _).
    split; [exact Hrec|].
    exists s', sigs. split; [exact Hrun|].
    rewrite Hids. vm_compute. reflexivity.
Defined.

(** A reply with white space, attributes and another element among the
    children: a [message] with a text, then "down" with white space
    around it, then a [message] without text. *)
Lemma server_down_message_witness :
  let pre :=
    [Other (Xml.Characters " ");
     Child "message" [("level", "info")] [Xml.Characters "OK"];
     Other (Xml.StartElement "load" []); Other (Xml.Characters "3");
     Other (Xml.EndElement "load")] in
  let post :=
    [Other (Xml.Characters " "); Child "message" [] []] in
  statsMessage
    (mkReply None
       (statsData [Xml.StartDocument] [("version", "2")]
          (pre ++ Child "bc-server-running" [("since", "noon")]
                        [Xml.Characters " down"; Xml.Comment;
                         Xml.Characters " "]
               :: post)
          [Xml.EndDocument]))
  = Some "Server process stopped".
Proof.
  intros pre post.
  assert (noElement "stats" [Xml.EndDocument]) as Hrest.
  { intros a Hin. apply list_elem_of_singleton in Hin. discriminate Hin. }
  pose proof (server_down_message [Xml.StartDocument] [("version", "2")]
                pre post [("since", "noon")]
                [Xml.Characters " down"; Xml.Comment; Xml.Characters " "]
                [Xml.EndDocument] ltac:(shaped) ltac:(shaped) ltac:(shaped)
                ltac:(shaped) Hrest eq_refl) as Hreply.
  cbv zeta in Hreply. destruct Hreply as (Hdown & _ & _).
  apply Hdown.
  - exists "OK". by left.
  - intros txt Hin. apply list_elem_of_singleton in Hin. by injection Hin.
Defined.

(** A reply with two [message] children with a text, an empty one and a
    [bc-server-running] that is up after the second: the second text is
    the message. *)
Lemma last_message_wins_witness :
  let pre :=
    [Child "message" [] [Xml.Characters "first"];
     Child "bc-server-running" [] [Xml.Characters "down"];
     Other (Xml.Characters " ")] in
  let post :=
    [Other Xml.Comment; Child "message" [] [];
     Child "bc-server-running" [] [Xml.Characters "up"];
     Other (Xml.StartElement "load" []); Other (Xml.EndElement "load")] in
  statsMessage
    (mkReply None
       (statsData [Xml.StartDocument] []
          (pre ++ Child "message" [("level", "warn")]
                        [Xml.Characters "disk "; Xml.EntityReference "full"]
               :: post)
          [Xml.EndDocument]))
  = Some "disk full".
Proof.
  intros pre post.
  apply (last_message_wins [Xml.StartDocument] [] pre post
           [("level", "warn")]
           [Xml.Characters "disk "; Xml.EntityReference "full"]
           [Xml.EndDocument]).
  - shaped.
  - shaped.
  - shaped.
  - shaped.
  - intros a Hin. apply list_elem_of_singleton in Hin. discriminate Hin.
  - discriminate.
  - intros c Hin. apply elem_of_cons in Hin as [->|Hin].
    + split; [done|discriminate].
    + apply list_elem_of_singleton in Hin as ->.
      split; [discriminate|]. intros _. vm_compute. discriminate.
Defined.
